(** * Corporate DEI tracker API: the cache gateway and the API key gate

    A shallow embedding of
    - [app/redis_client.py]   ([get_cache], [set_cache]),
    - [app/utils/cache.py]    ([cached], [build_query_cache_key]),
    - [app/middleware/auth.py] ([hash_api_key], [generate_api_key],
      [verify_api_key], [require_admin_key]),
    - [app/routers/api_keys.py] (the key management handlers),
    with the two external stores (the Redis key-value store and the
    [api_keys] table) as explicit state. *)

From Stdlib Require Import ZArith Ascii String DecimalString OrdersEx.
From stdpp Require Import gmap strings list sorting.

Local Open Scope string_scope.
Local Open Scope Z_scope.

(** ** Python values and call outcomes *)

(** The values handlers return and the cache stores: the JSON-shaped
    fragment of Python's object universe. *)
#[warnings="-register-all"]
Inductive value : Type :=
| PyNone
| PyBool (b : bool)
| PyInt (z : Z)
| PyStr (s : string)
| PyList (xs : list value)
| PyDict (items : list (string * value)).

(** [x is not None] *)
Definition is_not_none (x : value) : bool :=
  match x with PyNone => false | _ => true end.

(** Truthiness of a [str]: only the empty string is falsy. *)
Definition str_truthy (s : string) : bool :=
  match s with EmptyString => false | String _ _ => true end.

Inductive exn : Type :=
| HTTPException (status_code : Z) (detail : string)
| Exception (msg : string).

(** What awaiting a call yields: a returned value or a raised exception. *)
Inductive outcome (A : Type) : Type :=
| Return (a : A)
| Raise (e : exn).
Arguments Return {A} a.
Arguments Raise {A} e.

(** ** The Upstash Redis store

    Entries carry their payload and the instant at which they expire.
    [faults] is the schedule of transport failures the environment has in
    store: every request to the store consumes the head of the schedule
    and raises when it is [true]; an exhausted schedule means a healthy
    store. *)
Record Redis : Type := mkRedis {
  kv : gmap string (string * Z);
  faults : list bool
}.

Definition next_fault (r : Redis) : bool * Redis :=
  match faults r with
  | [] => (false, r)
  | b :: fs => (b, mkRedis (kv r) fs)
  end.

(** [redis_client.get(key)]: [None] when the request raised, otherwise the
    live payload if there is one. *)
Definition redis_get (key : string) (now : Z) (r : Redis)
  : option (option string) * Redis :=
  let '(fault, r') := next_fault r in
  if fault then (None, r')
  else
    (Some (match kv r' !! key with
           | Some (p, expires) => if now <? expires then Some p else None
           | None => None
           end), r').

(** [redis_client.set(key, value, ex=ttl)]: [false] when the request
    raised.  The server refuses an expiry that is not positive. *)
Definition redis_set (key payload : string) (ex now : Z) (r : Redis)
  : bool * Redis :=
  let '(fault, r') := next_fault r in
  if fault then (false, r')
  else if ex <=? 0 then (false, r')
  else (true, mkRedis (<[key := (payload, now + ex)]> (kv r')) (faults r')).

(** The store is about to fail the next request. *)
Definition raises (r : Redis) : bool := fst (next_fault r).

(** ** What the cache layer takes from its environment *)

(** What [json.loads] makes of a text: a value, a [JSONDecodeError], or
    an exception of another class (a [RecursionError] on a text nested too
    deep). *)
Inductive loaded : Type :=
| Loaded (x : value)
| JSONDecodeError
| OtherError.

(** Python's [json] module; [json_dumps] is [None] when it raises (a
    [TypeError] on an object that is not serialisable). *)
Class Json : Type := {
  json_loads : string -> loaded;
  json_dumps : value -> option string
}.

(** app/config.py: [settings.redis_cache_ttl] *)
Class Settings : Type := {
  redis_cache_ttl : Z
}.

(** Python's builtin [str] *)
Class Builtins : Type := {
  py_str : value -> string
}.

(** ** app/redis_client.py and app/utils/cache.py *)
Section Cache.
Context {json : Json} {settings : Settings} {builtins : Builtins}.
(** Whatever the wrapped handlers read and write besides the cache. *)
Context {World : Type}.

(** [get_cache], app/redis_client.py lines 21-43.  The function returns
    Python's [None] both for "nothing usable" and for a payload that
    decodes to [None]. *)
Definition get_cache (key : string) (now : Z) (r : Redis) : value * Redis :=
  match redis_get key now r with
  | (None, r') => (PyNone, r')              (* except Exception: return None *)
  | (Some None, r') => (PyNone, r')         (* [if value:] fails, falls off the end *)
  | (Some (Some v), r') =>
      if str_truthy v then
        match json_loads v with
        | Loaded x => (x, r')
        | JSONDecodeError => (PyStr v, r')  (* except JSONDecodeError: return value *)
        | OtherError => (PyNone, r')        (* except Exception: return None *)
        end
      else (PyNone, r')
  end.

(** The text [set_cache] hands to the store: a [str] as it is, anything
    else through [json.dumps]. *)
Definition payload_of (v : value) : option string :=
  match v with
  | PyStr s => Some s
  | _ => json_dumps v
  end.

(** [ttl or settings.redis_cache_ttl] *)
Definition resolve_ttl (ttl : option Z) : Z :=
  match ttl with
  | Some t => if t =? 0 then redis_cache_ttl else t
  | None => redis_cache_ttl
  end.

(** [set_cache], app/redis_client.py lines 46-69. *)
Definition set_cache (key : string) (v : value) (ttl : option Z) (now : Z)
    (r : Redis) : bool * Redis :=
  match payload_of v with
  | None => (false, r)                      (* json.dumps raised; caught *)
  | Some p => redis_set key p (resolve_ttl ttl) now r
  end.

Definition compute : Type := World -> outcome value * World.

(** The body of [wrapper] once the key is known,
    app/utils/cache.py lines 42-53. *)
Definition get_or_compute (cache_key : string) (func : compute)
    (ttl : option Z) (now : Z) (w : World) (r : Redis)
  : outcome value * World * Redis :=
  let '(cached_result, r1) := get_cache cache_key now r in
  if is_not_none cached_result then (Return cached_result, w, r1)
  else
    match func w with
    | (Raise e, w') => (Raise e, w', r1)
    | (Return result, w') =>
        let '(_, r2) := set_cache cache_key result ttl now r1 in
        (Return result, w', r2)
    end.

(** The default key of [wrapper], app/utils/cache.py lines 34-40. *)
Definition default_cache_key (key_prefix : string) (args : list value)
    (kwargs : list (string * value)) : string :=
  let args_str :=
    String.concat "_" (map py_str (filter (fun a => is_not_none a = true) args)) in
  let kwargs_str :=
    String.concat "_"
      (map (fun kv => fst kv ++ "=" ++ py_str (snd kv))
           (filter (fun kv => is_not_none (snd kv) = true) kwargs)) in
  let suffix :=
    String.concat "_" (filter (fun s => str_truthy s = true) [args_str; kwargs_str]) in
  if str_truthy suffix then key_prefix ++ ":" ++ suffix else key_prefix.

Definition key_builder_t : Type := list value -> list (string * value) -> string.

(** [cached(key_prefix, ttl, key_builder)(func)], called with [args] and
    [kwargs]. *)
Definition cached (key_prefix : string) (ttl : option Z)
    (key_builder : option key_builder_t)
    (func : list value -> list (string * value) -> compute)
    (args : list value) (kwargs : list (string * value))
    (now : Z) (w : World) (r : Redis) : outcome value * World * Redis :=
  let cache_key :=
    match key_builder with
    | Some kb => kb args kwargs
    | None => default_cache_key key_prefix args kwargs
    end in
  get_or_compute cache_key (func args kwargs) ttl now w r.

(** [build_query_cache_key], app/utils/cache.py lines 59-76.  The keyword
    dictionary is its list of items in insertion order; [sorted] orders
    the items by name (names are unique in a dictionary, so the values
    are never compared). *)
Definition item_le (x y : string * value) : Prop :=
  String.leb (fst x) (fst y) = true.

#[local] Instance item_le_dec : RelDecision item_le.
Proof. intros x y. unfold item_le. apply _. Defined.

Definition sorted (items : list (string * value)) : list (string * value) :=
  merge_sort item_le items.

Definition build_query_cache_key (prefix : string)
    (params : list (string * value)) : string :=
  let filtered_params := filter (fun kv => is_not_none (snd kv) = true) params in
  match filtered_params with
  | [] => prefix
  | _ =>
      let params_str :=
        String.concat "_"
          (map (fun kv => fst kv ++ "=" ++ py_str (snd kv)) (sorted filtered_params)) in
      prefix ++ ":" ++ params_str
  end.

(** What [get_cache] makes of a non-empty payload. *)
Definition decode_payload (p : string) : value :=
  match json_loads p with
  | Loaded x => x
  | JSONDecodeError => PyStr p
  | OtherError => PyNone
  end.

(** Successive calls of one cached operation under one key, at the
    given instants. *)
Fixpoint call_each (cache_key : string) (func : compute) (ttl : option Z)
    (times : list Z) (w : World) (r : Redis)
  : list (outcome value) * World * Redis :=
  match times with
  | [] => ([], w, r)
  | now :: later =>
      let '(o, w1, r1) := get_or_compute cache_key func ttl now w r in
      let '(os, w2, r2) := call_each cache_key func ttl later w1 r1 in
      (o :: os, w2, r2)
  end.

(** The operation itself run [n] times in a row, without any cache. *)
Fixpoint invoke_each (func : compute) (n : nat) (w : World)
  : list (outcome value) * World :=
  match n with
  | O => ([], w)
  | S n' =>
      let '(o, w1) := func w in
      let '(os, w2) := invoke_each func n' w1 in
      (o :: os, w2)
  end.

(** The parameters both key builders keep: those that are not [None]. *)
Definition present (params : list (string * value)) : list (string * value) :=
  filter (fun kv => is_not_none (snd kv) = true) params.

(** [json.dumps(None)] reads back as [None]. *)
Definition json_null_law : Prop :=
  forall p, json_dumps PyNone = Some p -> json_loads p = Loaded PyNone.

(** Results the cache writes but cannot serve: [None], and whatever is
    stored as an empty payload (the empty string). *)
Definition unservable (v : value) : Prop :=
  v = PyNone \/ payload_of v = Some "".

(** The entry under [key], if there is one, reads as [None]. *)
Definition dead_entry (key : string) (m : gmap string (string * Z)) : Prop :=
  match m !! key with
  | None => True
  | Some (p, _) => p = "" \/ decode_payload p = PyNone
  end.

End Cache.

Arguments compute : clear implicits.

(** ** Strings as Python [str]

    A character of a Rocq string stands for the code point of the same
    number (0 to 255). *)
Definition code_points (s : string) : list Z :=
  map (fun c => Z.of_N (N_of_ascii c)) (list_ascii_of_string s).

Definition chr (n : Z) : ascii := ascii_of_N (Z.to_N n).

(** [str.encode()]: UTF-8. *)
Definition utf8_encode (s : string) : list Z :=
  flat_map (fun c => if c <? 128 then [c] else [192 + c / 64; 128 + c mod 64])
           (code_points s).

(** [s[:n]] *)
Definition str_prefix (n : nat) (s : string) : string :=
  string_of_list_ascii (take n (list_ascii_of_string s)).

(** ** SHA-256 (FIPS 180-4), the digest behind [hashlib.sha256] *)
Module SHA256.

Definition w32 (x : Z) : Z := x mod 2 ^ 32.
Definition rotr (n x : Z) : Z :=
  Z.lor (Z.shiftr x n) (w32 (Z.shiftl x (32 - n))).
Definition Ch (x y z : Z) : Z :=
  Z.lxor (Z.land x y) (Z.land (w32 (Z.lnot x)) z).
Definition Maj (x y z : Z) : Z :=
  Z.lxor (Z.lxor (Z.land x y) (Z.land x z)) (Z.land y z).
Definition Sigma0 (x : Z) : Z := Z.lxor (Z.lxor (rotr 2 x) (rotr 13 x)) (rotr 22 x).
Definition Sigma1 (x : Z) : Z := Z.lxor (Z.lxor (rotr 6 x) (rotr 11 x)) (rotr 25 x).
Definition sigma0 (x : Z) : Z := Z.lxor (Z.lxor (rotr 7 x) (rotr 18 x)) (Z.shiftr x 3).
Definition sigma1 (x : Z) : Z := Z.lxor (Z.lxor (rotr 17 x) (rotr 19 x)) (Z.shiftr x 10).

(** The round constants: the first 32 bits of the fractional parts of
    the cube roots of the first 64 primes. *)
Definition K : list Z :=
  [
   1116352408; 1899447441; 3049323471; 3921009573;
   961987163; 1508970993; 2453635748; 2870763221;
   3624381080; 310598401; 607225278; 1426881987;
   1925078388; 2162078206; 2614888103; 3248222580;
   3835390401; 4022224774; 264347078; 604807628;
   770255983; 1249150122; 1555081692; 1996064986;
   2554220882; 2821834349; 2952996808; 3210313671;
   3336571891; 3584528711; 113926993; 338241895;
   666307205; 773529912; 1294757372; 1396182291;
   1695183700; 1986661051; 2177026350; 2456956037;
   2730485921; 2820302411; 3259730800; 3345764771;
   3516065817; 3600352804; 4094571909; 275423344;
   430227734; 506948616; 659060556; 883997877;
   958139571; 1322822218; 1537002063; 1747873779;
   1955562222; 2024104815; 2227730452; 2361852424;
   2428436474; 2756734187; 3204031479; 3329325298
  ].

Record state : Type := mkState {
  h0 : Z; h1 : Z; h2 : Z; h3 : Z; h4 : Z; h5 : Z; h6 : Z; h7 : Z
}.

Definition H0 : state :=
  mkState 1779033703 3144134277 1013904242 2773480762
          1359893119 2600822924 528734635 1541459225.

(** Big-endian bytes of [x], [n] of them. *)
Fixpoint be_bytes (n : nat) (x : Z) : list Z :=
  match n with
  | O => []
  | S n' => (x / 256 ^ Z.of_nat n') mod 256 :: be_bytes n' x
  end.

Definition pad (msg : list Z) : list Z :=
  let len := Z.of_nat (length msg) in
  let zeros := Z.to_nat ((55 - len) mod 64) in
  msg ++ [128] ++ replicate zeros 0 ++ be_bytes 8 (8 * len).

(** The 32-bit big-endian words of a byte string. *)
Fixpoint words (n : nat) (bs : list Z) : list Z :=
  match n, bs with
  | S n', a :: b :: c :: d :: rest =>
      (((a * 256 + b) * 256 + c) * 256 + d) :: words n' rest
  | _, _ => []
  end.

(** The message schedule, most recent word first. *)
Fixpoint extend (n : nat) (ws : list Z) : list Z :=
  match n with
  | O => ws
  | S n' =>
      let w := w32 (sigma1 (nth 1 ws 0) + nth 6 ws 0
                    + sigma0 (nth 14 ws 0) + nth 15 ws 0) in
      extend n' (w :: ws)
  end.

Definition schedule (block : list Z) : list Z :=
  rev (extend 48 (rev block)).

Definition round (s : state) (kw : Z * Z) : state :=
  let t1 := w32 (h7 s + Sigma1 (h4 s) + Ch (h4 s) (h5 s) (h6 s) + fst kw + snd kw) in
  let t2 := w32 (Sigma0 (h0 s) + Maj (h0 s) (h1 s) (h2 s)) in
  mkState (w32 (t1 + t2)) (h0 s) (h1 s) (h2 s) (w32 (h3 s + t1)) (h4 s) (h5 s) (h6 s).

Definition compress (s : state) (block : list Z) : state :=
  let t := fold_left round (zip K (schedule block)) s in
  mkState (w32 (h0 s + h0 t)) (w32 (h1 s + h1 t)) (w32 (h2 s + h2 t))
          (w32 (h3 s + h3 t)) (w32 (h4 s + h4 t)) (w32 (h5 s + h5 t))
          (w32 (h6 s + h6 t)) (w32 (h7 s + h7 t)).

Fixpoint blocks (n : nat) (ws : list Z) : list (list Z) :=
  match n with
  | O => []
  | S n' => match ws with
            | [] => []
            | _ => take 16 ws :: blocks n' (drop 16 ws)
            end
  end.

Definition digest (msg : list Z) : state :=
  let ws := words (length (pad msg)) (pad msg) in
  fold_left compress (blocks (length ws) ws) H0.

Definition hex_digit (d : Z) : ascii :=
  if d <? 10 then chr (48 + d) else chr (87 + d).

(** [n] lower-case hexadecimal digits of [x], most significant first. *)
Fixpoint hex (n : nat) (x : Z) : string :=
  match n with
  | O => ""
  | S n' => String (hex_digit ((x / 16 ^ Z.of_nat n') mod 16)) (hex n' x)
  end.

Definition hexdigest (msg : list Z) : string :=
  let s := digest msg in
  hex 8 (h0 s) ++ hex 8 (h1 s) ++ hex 8 (h2 s) ++ hex 8 (h3 s)
  ++ hex 8 (h4 s) ++ hex 8 (h5 s) ++ hex 8 (h6 s) ++ hex 8 (h7 s).

End SHA256.

(** ** [secrets.token_urlsafe]

    [base64.urlsafe_b64encode(tok).rstrip(b'=').decode('ascii')] *)
Module Base64.

Definition alphabet : string :=
  "ABCDEFGHIJKLMNOPQRSTUVWXYZabcdefghijklmnopqrstuvwxyz0123456789-_".

Definition digit (i : Z) : ascii :=
  nth (Z.to_nat i) (list_ascii_of_string alphabet) "="%char.

(** The sextet a character stands for. *)
Definition index (c : ascii) : Z :=
  let n := Z.of_N (N_of_ascii c) in
  if (65 <=? n) && (n <=? 90) then n - 65
  else if (97 <=? n) && (n <=? 122) then n - 71
  else if (48 <=? n) && (n <=? 57) then n + 4
  else if n =? 45 then 62
  else 63.

(** The encoding with its [=] padding stripped. *)
Fixpoint encode (bs : list Z) : list ascii :=
  match bs with
  | [] => []
  | [a] => [digit (a / 4); digit (a mod 4 * 16)]
  | [a; b] => [digit (a / 4); digit (a mod 4 * 16 + b / 16); digit (b mod 16 * 4)]
  | a :: b :: c :: rest =>
      digit (a / 4) :: digit (a mod 4 * 16 + b / 16)
      :: digit (b mod 16 * 4 + c / 64) :: digit (c mod 64) :: encode rest
  end.

Fixpoint decode (cs : list ascii) : list Z :=
  match cs with
  | p :: q :: r :: s :: rest =>
      (index p * 4 + index q / 16)
      :: (index q mod 16 * 16 + index r / 4)
      :: (index r mod 4 * 64 + index s) :: decode rest
  | [p; q; r] => [index p * 4 + index q / 16; index q mod 16 * 16 + index r / 4]
  | [p; q] => [index p * 4 + index q / 16]
  | _ => []
  end.

End Base64.

(** The characters a URL takes unescaped: letters, digits, [-] and [_]. *)
Definition url_safe (c : ascii) : bool :=
  let n := Z.of_N (N_of_ascii c) in
  ((65 <=? n) && (n <=? 90)) || ((97 <=? n) && (n <=? 122))
  || ((48 <=? n) && (n <=? 57)) || (n =? 45) || (n =? 95).

Definition is_byte (b : Z) : Prop := 0 <= b < 256.

(** The operating system's entropy source: an unbounded supply of bytes. *)
Definition entropy : Type := nat -> Z.

(** [secrets.token_bytes(n)]: the next [n] bytes of the source. *)
Definition token_bytes (n : nat) (src : entropy) : list Z * entropy :=
  (map (fun i => src i mod 256) (seq 0 n), fun i => src (i + n)%nat).

Definition token_urlsafe (nbytes : nat) (src : entropy) : string * entropy :=
  let '(tok, src') := token_bytes nbytes src in
  (string_of_list_ascii (Base64.encode tok), src').

(** ** app/middleware/auth.py *)

(** [hash_api_key], lines 16-26 *)
Definition hash_api_key (api_key : string) : string :=
  SHA256.hexdigest (utf8_encode api_key).

(** [generate_api_key], lines 29-36 *)
Definition generate_api_key (src : entropy) : string * entropy :=
  token_urlsafe 32 src.

(** ** The [api_keys] table

    Identifiers are UUIDs in their textual form; [timestamptz] columns are
    kept as instants (seconds), the ISO-8601 text PostgREST renders them
    as being read back by [datetime.fromisoformat]. *)
Record APIKeyRow : Type := mkRow {
  row_id : string;
  row_name : string;
  row_key_hash : string;
  row_key_prefix : string;
  row_is_admin : bool;
  row_is_active : bool;
  row_created_by : option string;
  row_created_at : Z;
  row_last_used_at : option Z;
  row_expires_at : option Z;
  row_metadata : value
}.

(** The relational store: the rows of [api_keys] and, as for the cache
    store, the schedule of requests that will fail. *)
Record Database : Type := mkDb {
  api_keys : list APIKeyRow;
  db_faults : list bool
}.

Definition db_next_fault (db : Database) : bool * Database :=
  match db_faults db with
  | [] => (false, db)
  | b :: fs => (b, mkDb (api_keys db) fs)
  end.

(** The relational store is about to fail the next request. *)
Definition db_raises (db : Database) : bool := fst (db_next_fault db).

(** [.select("*").eq(column, x).execute()]: [None] when the request
    raised, otherwise [response.data]. *)
Definition db_select (p : APIKeyRow -> bool) (db : Database)
  : option (list APIKeyRow) * Database :=
  let '(fault, db') := db_next_fault db in
  if fault then (None, db')
  else (Some (List.filter p (api_keys db')), db').

(** [.update(fields).eq(column, x).execute()]; [response.data] holds the
    rows as updated. *)
Definition db_update (p : APIKeyRow -> bool) (f : APIKeyRow -> APIKeyRow)
    (db : Database) : option (list APIKeyRow) * Database :=
  let '(fault, db') := db_next_fault db in
  if fault then (None, db')
  else (Some (map f (List.filter p (api_keys db'))),
        mkDb (map (fun r => if p r then f r else r) (api_keys db')) (db_faults db')).

(** [.insert(row).execute()] *)
Definition db_insert (row : APIKeyRow) (db : Database)
  : option (list APIKeyRow) * Database :=
  let '(fault, db') := db_next_fault db in
  if fault then (None, db')
  else (Some [row], mkDb (api_keys db' ++ [row]) (db_faults db')).

(** [.delete().eq(column, x).execute()]; [response.data] holds the rows
    removed. *)
Definition db_delete (p : APIKeyRow -> bool) (db : Database)
  : option (list APIKeyRow) * Database :=
  let '(fault, db') := db_next_fault db in
  if fault then (None, db')
  else (Some (List.filter p (api_keys db')),
        mkDb (List.filter (fun r => negb (p r)) (api_keys db')) (db_faults db')).

(** ** app/schemas/api_key.py *)

Record APIKeyCreate : Type := mkCreate {
  new_name : string;
  new_is_admin : bool;
  new_expires_at : option Z;
  new_metadata : value
}.

Record APIKeyResponse : Type := mkResponse {
  resp_id : string;
  resp_name : string;
  resp_key : string;
  resp_key_prefix : string;
  resp_is_active : bool;
  resp_is_admin : bool;
  resp_created_at : Z;
  resp_expires_at : option Z;
  resp_metadata : value
}.

Record APIKeyInfo : Type := mkInfo {
  info_id : string;
  info_name : string;
  info_key_prefix : string;
  info_is_active : bool;
  info_is_admin : bool;
  info_created_at : Z;
  info_created_by : option string;
  info_last_used_at : option Z;
  info_expires_at : option Z;
  info_metadata : value
}.

Record APIKeyUpdate : Type := mkUpdate {
  upd_name : option string;
  upd_is_active : option bool;
  upd_expires_at : option Z;
  upd_metadata : option value
}.

Record APIKeyValidation : Type := mkValidation {
  val_id : string;
  val_is_admin : bool;
  val_is_active : bool;
  val_expires_at : option Z;
  val_metadata : value
}.

(** [APIKeyInfo] built from the columns of a row *)
Definition APIKeyInfo_of_row (r : APIKeyRow) : APIKeyInfo :=
  mkInfo (row_id r) (row_name r) (row_key_prefix r) (row_is_active r)
         (row_is_admin r) (row_created_at r) (row_created_by r)
         (row_last_used_at r) (row_expires_at r) (row_metadata r).

(** ** app/middleware/auth.py, continued *)

Definition HTTP_400_BAD_REQUEST : Z := 400.
Definition HTTP_401_UNAUTHORIZED : Z := 401.
Definition HTTP_403_FORBIDDEN : Z := 403.
Definition HTTP_404_NOT_FOUND : Z := 404.
Definition HTTP_500_INTERNAL_SERVER_ERROR : Z := 500.

Definition set_last_used_at (now : Z) (r : APIKeyRow) : APIKeyRow :=
  mkRow (row_id r) (row_name r) (row_key_hash r) (row_key_prefix r)
        (row_is_admin r) (row_is_active r) (row_created_by r)
        (row_created_at r) (Some now) (row_expires_at r) (row_metadata r).

(** [verify_api_key], lines 39-117.  [api_key] is the [X-API-Key] header
    ([None] when the request has none), [now] the current time.  The text
    of an exception caught at line 113 is left out of the 500's detail. *)
Definition verify_api_key (api_key : option string) (now : Z) (db : Database)
  : outcome APIKeyValidation * Database :=
  match api_key with
  | None | Some EmptyString =>
      (Raise (HTTPException HTTP_401_UNAUTHORIZED
                "API key is required. Include 'X-API-Key' header in your request."), db)
  | Some key =>
      let key_hash := hash_api_key key in
      match db_select (fun r => String.eqb (row_key_hash r) key_hash) db with
      | (None, db1) =>
          (Raise (HTTPException HTTP_500_INTERNAL_SERVER_ERROR
                    "Error validating API key"), db1)
      | (Some [], db1) =>
          (Raise (HTTPException HTTP_401_UNAUTHORIZED "Invalid API key"), db1)
      | (Some (key_data :: _), db1) =>
          if negb (row_is_active key_data) then
            (Raise (HTTPException HTTP_401_UNAUTHORIZED
                      "API key has been deactivated"), db1)
          else if match row_expires_at key_data with
                  | Some expiry_dt => now >? expiry_dt
                  | None => false
                  end then
            (Raise (HTTPException HTTP_401_UNAUTHORIZED "API key has expired"), db1)
          else
            (* fire and forget: an exception of the update is swallowed *)
            let '(_, db2) :=
              db_update (fun r => String.eqb (row_id r) (row_id key_data))
                        (set_last_used_at now) db1 in
            (Return (mkValidation (row_id key_data) (row_is_admin key_data)
                       (row_is_active key_data) (row_expires_at key_data)
                       (row_metadata key_data)), db2)
      end
  end.

(** The record a credential is matched to: the first row of the table
    whose stored digest is the digest of the credential. *)
Definition matched_record (db : Database) (key : string) : option APIKeyRow :=
  List.find (fun r => String.eqb (row_key_hash r) (hash_api_key key)) (api_keys db).

(** The principal [verify_api_key] builds from a row. *)
Definition principal_of (key_data : APIKeyRow) : APIKeyValidation :=
  mkValidation (row_id key_data) (row_is_admin key_data) (row_is_active key_data)
               (row_expires_at key_data) (row_metadata key_data).

(** The policy check of [verify_api_key] on the record matched, if any. *)
Definition verdict (now : Z) (o : option APIKeyRow) : outcome APIKeyValidation :=
  match o with
  | None => Raise (HTTPException HTTP_401_UNAUTHORIZED "Invalid API key")
  | Some row =>
      if negb (row_is_active row) then
        Raise (HTTPException HTTP_401_UNAUTHORIZED "API key has been deactivated")
      else if match row_expires_at row with
              | Some expiry_dt => now >? expiry_dt
              | None => false
              end then
        Raise (HTTPException HTTP_401_UNAUTHORIZED "API key has expired")
      else Return (principal_of row)
  end.

(** [require_admin_key], lines 120-141, given what its dependency
    [verify_api_key] returned. *)
Definition require_admin_key (key_validation : APIKeyValidation)
  : outcome APIKeyValidation :=
  if negb (val_is_admin key_validation) then
    Raise (HTTPException HTTP_403_FORBIDDEN
             "Admin API key required for this operation")
  else Return key_validation.

(** [Security(require_admin_key)]: FastAPI resolves [verify_api_key] from
    the request first and feeds its result to [require_admin_key]; an
    exception of either ends the request. *)
Definition Security_require_admin_key (api_key : option string) (now : Z)
    (db : Database) : outcome APIKeyValidation * Database :=
  match verify_api_key api_key now db with
  | (Return key_validation, db') => (require_admin_key key_validation, db')
  | (Raise e, db') => (Raise e, db')
  end.

(** ** app/routers/api_keys.py

    Each handler receives [admin_key], the principal its
    [Security(require_admin_key)] dependency resolved. *)

(** [create_api_key], lines 38-102.  [new_id] and [now] are the [id] and
    [created_at] the table's column defaults give the new row. *)
Definition create_api_key (key_data : APIKeyCreate) (admin_key : APIKeyValidation)
    (src : entropy) (new_id : string) (now : Z) (db : Database)
  : outcome APIKeyResponse * Database * entropy :=
  let '(new_key, src') := generate_api_key src in
  let key_hash := hash_api_key new_key in
  let key_prefix := str_prefix 8 new_key in
  match db_insert (mkRow new_id (new_name key_data) key_hash key_prefix
                     (new_is_admin key_data) true (Some (val_id admin_key))
                     now None (new_expires_at key_data) (new_metadata key_data)) db with
  | (None, db') =>
      (Raise (HTTPException HTTP_500_INTERNAL_SERVER_ERROR "Error creating API key"),
       db', src')
  | (Some [], db') =>
      (Raise (HTTPException HTTP_500_INTERNAL_SERVER_ERROR "Failed to create API key"),
       db', src')
  | (Some (created_key :: _), db') =>
      (Return (mkResponse (row_id created_key) (row_name created_key) new_key
                 (row_key_prefix created_key) (row_is_active created_key)
                 (row_is_admin created_key) (row_created_at created_key)
                 (row_expires_at created_key) (row_metadata created_key)),
       db', src')
  end.

(** The [update_data] dictionary of [update_api_key] applied to a row. *)
Definition apply_update (updates : APIKeyUpdate) (r : APIKeyRow) : APIKeyRow :=
  mkRow (row_id r)
        (default (row_name r) (upd_name updates))
        (row_key_hash r) (row_key_prefix r) (row_is_admin r)
        (default (row_is_active r) (upd_is_active updates))
        (row_created_by r) (row_created_at r) (row_last_used_at r)
        (match upd_expires_at updates with
         | Some t => Some t
         | None => row_expires_at r
         end)
        (default (row_metadata r) (upd_metadata updates)).

(** [not update_data]: no field was provided. *)
Definition no_updates (updates : APIKeyUpdate) : bool :=
  match upd_name updates, upd_is_active updates,
        upd_expires_at updates, upd_metadata updates with
  | None, None, None, None => true
  | _, _, _, _ => false
  end.

(** [update_api_key], lines 196-250 *)
Definition update_api_key (key_id : string) (updates : APIKeyUpdate)
    (admin_key : APIKeyValidation) (db : Database)
  : outcome APIKeyInfo * Database :=
  if no_updates updates then
    (Raise (HTTPException HTTP_400_BAD_REQUEST "No updates provided"), db)
  else
    match db_update (fun r => String.eqb (row_id r) key_id) (apply_update updates) db with
    | (None, db') =>
        (Raise (HTTPException HTTP_500_INTERNAL_SERVER_ERROR "Error updating API key"), db')
    | (Some [], db') =>
        (Raise (HTTPException HTTP_404_NOT_FOUND "API key not found"), db')
    | (Some (row :: _), db') => (Return (APIKeyInfo_of_row row), db')
    end.

(** [delete_api_key], lines 259-299 *)
Definition delete_api_key (key_id : string) (admin_key : APIKeyValidation)
    (db : Database) : outcome unit * Database :=
  if String.eqb key_id (val_id admin_key) then
    (Raise (HTTPException HTTP_400_BAD_REQUEST
              "Cannot delete the API key you are currently using"), db)
  else
    match db_delete (fun r => String.eqb (row_id r) key_id) db with
    | (None, db') =>
        (Raise (HTTPException HTTP_500_INTERNAL_SERVER_ERROR "Error deleting API key"), db')
    | (Some [], db') =>
        (Raise (HTTPException HTTP_404_NOT_FOUND "API key not found"), db')
    | (Some (_ :: _), db') => (Return tt, db')
    end.

Definition set_is_active (b : bool) (r : APIKeyRow) : APIKeyRow :=
  mkRow (row_id r) (row_name r) (row_key_hash r) (row_key_prefix r)
        (row_is_admin r) b (row_created_by r) (row_created_at r)
        (row_last_used_at r) (row_expires_at r) (row_metadata r).

(** [deactivate_api_key], lines 308-350 *)
Definition deactivate_api_key (key_id : string) (admin_key : APIKeyValidation)
    (db : Database) : outcome APIKeyInfo * Database :=
  if String.eqb key_id (val_id admin_key) then
    (Raise (HTTPException HTTP_400_BAD_REQUEST
              "Cannot deactivate the API key you are currently using"), db)
  else
    match db_update (fun r => String.eqb (row_id r) key_id) (set_is_active false) db with
    | (None, db') =>
        (Raise (HTTPException HTTP_500_INTERNAL_SERVER_ERROR
                  "Error deactivating API key"), db')
    | (Some [], db') =>
        (Raise (HTTPException HTTP_404_NOT_FOUND "API key not found"), db')
    | (Some (row :: _), db') => (Return (APIKeyInfo_of_row row), db')
    end.

(** [activate_api_key], lines 359-394 *)
Definition activate_api_key (key_id : string) (admin_key : APIKeyValidation)
    (db : Database) : outcome APIKeyInfo * Database :=
  match db_update (fun r => String.eqb (row_id r) key_id) (set_is_active true) db with
  | (None, db') =>
      (Raise (HTTPException HTTP_500_INTERNAL_SERVER_ERROR "Error activating API key"), db')
  | (Some [], db') =>
      (Raise (HTTPException HTTP_404_NOT_FOUND "API key not found"), db')
  | (Some (row :: _), db') => (Return (APIKeyInfo_of_row row), db')
  end.

(** A request to an admin-gated route: the dependency, then the handler. *)
Definition admin_route {A : Type}
    (handler : APIKeyValidation -> Database -> outcome A * Database)
    (api_key : option string) (now : Z) (db : Database) : outcome A * Database :=
  match Security_require_admin_key api_key now db with
  | (Return admin_key, db') => handler admin_key db'
  | (Raise e, db') => (Raise e, db')
  end.

(** [PATCH /api-keys/{key_id}] *)
Definition PATCH_api_key (key_id : string) (updates : APIKeyUpdate) :=
  admin_route (update_api_key key_id updates).

(** [DELETE /api-keys/{key_id}] *)
Definition DELETE_api_key (key_id : string) :=
  admin_route (delete_api_key key_id).

(** [POST /api-keys/{key_id}/deactivate] *)
Definition POST_deactivate (key_id : string) :=
  admin_route (deactivate_api_key key_id).

(** ** Reference instances of the library functions

    The development is parametric in Python's [json] codec and in the
    builtin [str]; the instances below are used to run it on concrete
    inputs.  [RefJson] is [json.dumps] and [json.loads] with their default
    options on the fragment of [value] (no floating point numbers, code
    points up to 255). *)
Module RefJson.

#[local] Open Scope list_scope.

Definition chars (s : string) : list ascii := list_ascii_of_string s.

Definition dquote : ascii := "034"%char.
Definition backslash : ascii := "092"%char.

(** [py_encode_basestring_ascii]: everything outside space..~ is
    escaped, as are the quote and the backslash. *)
Definition escape_char (c : ascii) : list ascii :=
  let n := Z.of_N (N_of_ascii c) in
  if n =? 34 then [backslash; dquote]
  else if n =? 92 then [backslash; backslash]
  else if n =? 10 then [backslash; "n"%char]
  else if n =? 13 then [backslash; "r"%char]
  else if n =? 9 then [backslash; "t"%char]
  else if n =? 12 then [backslash; "f"%char]
  else if n =? 8 then [backslash; "b"%char]
  else if (32 <=? n) && (n <=? 126) then [c]
  else backslash :: "u"%char :: chars (SHA256.hex 4 n).

Definition quote (s : list ascii) : list ascii :=
  dquote :: flat_map escape_char s ++ [dquote].

(** The decimal digits of [n], most significant first, put before
    [acc]. *)
Fixpoint digits (fuel : nat) (n : Z) (acc : list ascii) : list ascii :=
  match fuel with
  | O => acc
  | S fuel' =>
      let acc' := chr (48 + n mod 10) :: acc in
      if n <? 10 then acc' else digits fuel' (n / 10) acc'
  end.

(** [str] of an [int] *)
Definition print_Z (z : Z) : list ascii :=
  if z <? 0 then "-"%char :: digits (S (Z.to_nat (Z.log2 (- z)))) (- z) []
  else digits (S (Z.to_nat (Z.log2 z))) z [].

Fixpoint join (sep : list ascii) (parts : list (list ascii)) : list ascii :=
  match parts with
  | [] => []
  | [p] => p
  | p :: rest => p ++ sep ++ join sep rest
  end.

Fixpoint print (v : value) : list ascii :=
  match v with
  | PyNone => chars "null"
  | PyBool true => chars "true"
  | PyBool false => chars "false"
  | PyInt z => print_Z z
  | PyStr s => quote (chars s)
  | PyList xs => "["%char :: join (chars ", ") (map print xs) ++ ["]"%char]
  | PyDict items =>
      "{"%char
      :: join (chars ", ")
              (map (fun kx => quote (chars (fst kx)) ++ chars ": " ++ print (snd kx)) items)
      ++ ["}"%char]
  end.

Definition dumps (v : value) : string := string_of_list_ascii (print v).

Definition is_ws (c : ascii) : bool :=
  let n := Z.of_N (N_of_ascii c) in
  (n =? 32) || (n =? 9) || (n =? 10) || (n =? 13).

Fixpoint skip_ws (cs : list ascii) : list ascii :=
  match cs with
  | c :: rest => if is_ws c then skip_ws rest else cs
  | [] => []
  end.

(** What is left of [cs] after the literal [lit]. *)
Fixpoint strip (lit cs : list ascii) : option (list ascii) :=
  match lit, cs with
  | [], _ => Some cs
  | a :: lit', c :: cs' => if Ascii.eqb a c then strip lit' cs' else None
  | _ :: _, [] => None
  end.

Definition digit_val (c : ascii) : option Z :=
  let n := Z.of_N (N_of_ascii c) in
  if (48 <=? n) && (n <=? 57) then Some (n - 48) else None.

Definition hex_val (c : ascii) : option Z :=
  let n := Z.of_N (N_of_ascii c) in
  if (48 <=? n) && (n <=? 57) then Some (n - 48)
  else if (97 <=? n) && (n <=? 102) then Some (n - 87)
  else if (65 <=? n) && (n <=? 70) then Some (n - 55)
  else None.

(** The digits at the head of [cs], accumulated onto [acc]. *)
Fixpoint parse_digits (acc : Z) (cs : list ascii) : Z * list ascii :=
  match cs with
  | c :: rest =>
      match digit_val c with
      | Some d => parse_digits (acc * 10 + d) rest
      | None => (acc, cs)
      end
  | [] => (acc, [])
  end.

Definition is_digit (c : ascii) : bool :=
  match digit_val c with Some _ => true | None => false end.

(** What follows the integer part would make the number a float. *)
Definition float_tail (cs : list ascii) : bool :=
  match cs with
  | c :: rest =>
      if Ascii.eqb c "." then
        match rest with
        | d :: _ => is_digit d
        | [] => false
        end
      else if (Ascii.eqb c "e" || Ascii.eqb c "E")%bool then
        match rest with
        | d :: rest' =>
            if (Ascii.eqb d "+" || Ascii.eqb d "-")%bool then
              match rest' with
              | d' :: _ => is_digit d'
              | [] => false
              end
            else is_digit d
        | [] => false
        end
      else false
  | [] => false
  end.

(** The digits of an integer: 0, or a digit string without a leading
    zero, not followed by a fraction or an exponent. *)
Definition parse_nat (cs : list ascii) : option (Z * list ascii) :=
  match cs with
  | c :: rest =>
      match digit_val c with
      | Some d =>
          let '(n, rest') := if d =? 0 then (0, rest) else parse_digits d rest in
          if float_tail rest' then None else Some (n, rest')
      | None => None
      end
  | [] => None
  end.

Definition parse_int (cs : list ascii) : option (Z * list ascii) :=
  match cs with
  | c :: rest =>
      if Ascii.eqb c "-" then
        match parse_nat rest with
        | Some (n, rest') => Some (- n, rest')
        | None => None
        end
      else parse_nat cs
  | [] => None
  end.

(** The character an escape letter stands for. *)
Definition unescape (e : ascii) : option ascii :=
  let m := Z.of_N (N_of_ascii e) in
  if m =? 34 then Some dquote
  else if m =? 92 then Some backslash
  else if m =? 47 then Some "/"%char
  else if m =? 98 then Some (chr 8)
  else if m =? 102 then Some (chr 12)
  else if m =? 110 then Some (chr 10)
  else if m =? 114 then Some (chr 13)
  else if m =? 116 then Some (chr 9)
  else None.

(** The four hexadecimal digits of a [\u] escape. *)
Definition parse_hex4 (cs : list ascii) : option (Z * list ascii) :=
  match cs with
  | a :: b :: c :: d :: rest =>
      match hex_val a, hex_val b, hex_val c, hex_val d with
      | Some x3, Some x2, Some x1, Some x0 =>
          Some (((x3 * 16 + x2) * 16 + x1) * 16 + x0, rest)
      | _, _, _, _ => None
      end
  | _ => None
  end.

(** The body of a string literal, after its opening quote. *)
Fixpoint parse_string (fuel : nat) (cs : list ascii)
  : option (list ascii * list ascii) :=
  match fuel with
  | O => None
  | S fuel' =>
      match cs with
      | [] => None
      | c :: rest =>
          let n := Z.of_N (N_of_ascii c) in
          if n =? 34 then Some ([], rest)
          else if n <? 32 then None
          else if n =? 92 then
            match rest with
            | e :: rest' =>
                if Ascii.eqb e "u" then
                  match parse_hex4 rest' with
                  | Some (cp, rest'') =>
                      if cp <? 256 then
                        match parse_string fuel' rest'' with
                        | Some (s, r) => Some (chr cp :: s, r)
                        | None => None
                        end
                      else None
                  | None => None
                  end
                else
                  match unescape e with
                  | Some x =>
                      match parse_string fuel' rest' with
                      | Some (s, r) => Some (x :: s, r)
                      | None => None
                      end
                  | None => None
                  end
            | [] => None
            end
          else
            match parse_string fuel' rest with
            | Some (s, r) => Some (c :: s, r)
            | None => None
            end
      end
  end.

(** A later duplicate of a member name overwrites the value in place. *)
Fixpoint dict_set (k : string) (x : value) (items : list (string * value))
  : list (string * value) :=
  match items with
  | [] => [(k, x)]
  | (k', x') :: rest =>
      if String.eqb k' k then (k, x) :: rest else (k', x') :: dict_set k x rest
  end.

Section Loops.
Variable parse_value : list ascii -> option (value * list ascii).

(** The elements of an array that is not empty. *)
Fixpoint parse_elements (fuel : nat) (cs : list ascii)
  : option (list value * list ascii) :=
  match fuel with
  | O => None
  | S fuel' =>
      match parse_value cs with
      | None => None
      | Some (v, rest) =>
          match skip_ws rest with
          | c :: rest' =>
              if Ascii.eqb c "," then
                match parse_elements fuel' rest' with
                | Some (vs, r) => Some (v :: vs, r)
                | None => None
                end
              else if Ascii.eqb c "]" then Some ([v], rest')
              else None
          | [] => None
          end
      end
  end.

(** The members of an object that is not empty, added to [acc]. *)
Fixpoint parse_members (fuel : nat) (acc : list (string * value))
    (cs : list ascii) : option (list (string * value) * list ascii) :=
  match fuel with
  | O => None
  | S fuel' =>
      match skip_ws cs with
      | q :: rest =>
          if Ascii.eqb q dquote then
            match parse_string (length rest) rest with
            | None => None
            | Some (k, rest1) =>
                match skip_ws rest1 with
                | c :: rest2 =>
                    if Ascii.eqb c ":" then
                      match parse_value rest2 with
                      | None => None
                      | Some (v, rest3) =>
                          let acc' := dict_set (string_of_list_ascii k) v acc in
                          match skip_ws rest3 with
                          | c' :: rest4 =>
                              if Ascii.eqb c' "," then parse_members fuel' acc' rest4
                              else if Ascii.eqb c' "}" then Some (acc', rest4)
                              else None
                          | [] => None
                          end
                      end
                    else None
                | [] => None
                end
            end
          else None
      | [] => None
      end
  end.
End Loops.

Fixpoint parse_value (fuel : nat) (cs : list ascii)
  : option (value * list ascii) :=
  match fuel with
  | O => None
  | S fuel' =>
      match skip_ws cs with
      | [] => None
      | c :: rest =>
          if Ascii.eqb c "[" then
            match skip_ws rest with
            | c' :: rest' =>
                if Ascii.eqb c' "]" then Some (PyList [], rest')
                else
                  match parse_elements (parse_value fuel') (length rest) rest with
                  | Some (vs, r) => Some (PyList vs, r)
                  | None => None
                  end
            | [] => None
            end
          else if Ascii.eqb c "{" then
            match skip_ws rest with
            | c' :: rest' =>
                if Ascii.eqb c' "}" then Some (PyDict [], rest')
                else
                  match parse_members (parse_value fuel') (length rest) [] rest with
                  | Some (items, r) => Some (PyDict items, r)
                  | None => None
                  end
            | [] => None
            end
          else if Ascii.eqb c dquote then
            match parse_string (length rest) rest with
            | Some (s, r) => Some (PyStr (string_of_list_ascii s), r)
            | None => None
            end
          else if Ascii.eqb c "n" then
            match strip (chars "ull") rest with
            | Some r => Some (PyNone, r)
            | None => None
            end
          else if Ascii.eqb c "t" then
            match strip (chars "rue") rest with
            | Some r => Some (PyBool true, r)
            | None => None
            end
          else if Ascii.eqb c "f" then
            match strip (chars "alse") rest with
            | Some r => Some (PyBool false, r)
            | None => None
            end
          else
            match parse_int (c :: rest) with
            | Some (z, r) => Some (PyInt z, r)
            | None => None
            end
      end
  end.

(** [json.loads]: one value, white space around it, nothing else. *)
Definition loads (s : string) : option value :=
  let cs := chars s in
  match parse_value (S (length cs)) cs with
  | Some (v, rest) =>
      match skip_ws rest with
      | [] => Some v
      | _ => None
      end
  | None => None
  end.

End RefJson.

(** No [value] fails to serialise. *)
Definition ref_json : Json :=
  {| json_loads := fun s => match RefJson.loads s with
                            | Some x => Loaded x
                            | None => JSONDecodeError
                            end;
     json_dumps := fun v => Some (RefJson.dumps v) |}.

(** Builtin [str] on scalars; a container is shown as its JSON text. *)
Definition ref_str (v : value) : string :=
  match v with
  | PyNone => "None"
  | PyBool true => "True"
  | PyBool false => "False"
  | PyInt z => string_of_list_ascii (RefJson.print_Z z)
  | PyStr s => s
  | _ => RefJson.dumps v
  end.

Definition ref_builtins : Builtins := {| py_str := ref_str |}.

(** The default of app/config.py: five minutes. *)
Definition default_settings : Settings := {| redis_cache_ttl := 300 |}.


(** ** Fixtures

    A world that counts how often an operation ran, operations that
    return a fixed value, and a cache store with faults to come. *)
Definition counting (v : value) : compute nat :=
  fun calls => (Return v, S calls).

Definition empty_store (fs : list bool) : Redis := mkRedis ∅ fs.

Definition store_with (key payload : string) (expires : Z) : Redis :=
  mkRedis {[ key := (payload, expires) ]} [].

(** A table holding one active admin key, whose secret is [root-secret],
    and one active plain key, whose secret is [reader-secret]. *)
Definition root_id : string := "0d2f3c1e-5a7b-4c8d-9e0f-1a2b3c4d5e6f".
Definition reader_id : string := "7b1e9a54-3c2d-4f6a-8b7c-9d0e1f2a3b4c".

Definition root_row : APIKeyRow :=
  mkRow root_id "root" (hash_api_key "root-secret") "root-sec"
        true true None 0 None None (PyDict []).

Definition reader_row : APIKeyRow :=
  mkRow reader_id "reader" (hash_api_key "reader-secret") "reader-s"
        false true (Some root_id) 5 None (Some 1000) (PyDict []).

Definition two_keys : Database := mkDb [root_row; reader_row] [].

(** * More of the code: invalidation, statistics, listings, bootstrap *)

(** ** app/redis_client.py: invalidation *)

(** The pattern matcher of the Redis server behind [KEYS]:
    [glob_match pattern key]. *)
Class Glob : Type := {
  glob_match : string -> string -> bool
}.

(** [redis_client.delete] of some keys: [None] when the request raised,
    otherwise the number of keys that were there to remove. *)
Definition redis_delete (keys : list string) (r : Redis) : option nat * Redis :=
  let '(fault, r') := next_fault r in
  if fault then (None, r')
  else (Some (length (List.filter (fun k => bool_decide (is_Some (kv r' !! k))) keys)),
        mkRedis (foldr delete (kv r') keys) (faults r')).

(** [delete_cache], lines 72-87 *)
Definition delete_cache (key : string) (r : Redis) : bool * Redis :=
  match redis_delete [key] r with
  | (Some _, r') => (true, r')
  | (None, r') => (false, r')                 (* except Exception: return False *)
  end.

Section Patterns.
Context {glob : Glob}.

(** [redis_client.keys(pattern)]: the names of the entries that have not
  expired and match the pattern. *)
Definition redis_keys (pattern : string) (now : Z) (r : Redis)
: option (list string) * Redis :=
let '(fault, r') := next_fault r in
if fault then (None, r')
else
  (Some (List.filter (glob_match pattern)
           (map fst (List.filter (fun e => now <? snd (snd e))
                                 (map_to_list (kv r'))))), r').

(** [clear_cache_pattern], lines 90-107 *)
Definition clear_cache_pattern (pattern : string) (now : Z) (r : Redis)
: bool * Redis :=
match redis_keys pattern now r with
| (None, r1) => (false, r1)                 (* except Exception: return False *)
| (Some [], r1) => (true, r1)               (* [if keys:] fails, nothing to delete *)
| (Some keys, r1) =>
    match redis_delete keys r1 with
    | (Some _, r2) => (true, r2)
    | (None, r2) => (false, r2)
    end
end.

(** ** app/main.py: the cache endpoints *)

Inductive clear_status : Type :=
| ClearSuccess (message : string)
| ClearError (message : string).

(** [clear_cache], lines 173-201 *)
Definition clear_cache (pattern : string) (now : Z) (r : Redis)
: clear_status * Redis :=
let '(success, r') := clear_cache_pattern pattern now r in
if success then (ClearSuccess ("Cache cleared for pattern: " ++ pattern), r')
else (ClearError "Failed to clear cache", r').

(** [key.split(":")[0]]: the part of a key before its first colon, the
  whole key when it has none. *)
Fixpoint before_colon (cs : list ascii) : list ascii :=
match cs with
| [] => []
| c :: rest => if Ascii.eqb c ":" then [] else c :: before_colon rest
end.

(** [":" in key] *)
Definition has_colon (key : string) : bool :=
existsb (fun c => Ascii.eqb c ":") (list_ascii_of_string key).

(** [key.split(":")[0] if ":" in key else "other"] *)
Definition prefix_of_key (key : string) : string :=
if has_colon key then string_of_list_ascii (before_colon (list_ascii_of_string key))
else "other".

(** [prefixes[prefix] = prefixes.get(prefix, 0) + 1] *)
Definition count_one (prefixes : gmap string nat) (prefix : string) : gmap string nat :=
<[prefix := (default 0%nat (prefixes !! prefix) + 1)%nat]> prefixes.

Inductive stats : Type :=
| StatsConnected (total_keys : nat) (keys_by_prefix : gmap string nat)
| StatsError.

(** [cache_stats], lines 204-232 *)
Definition cache_stats (now : Z) (r : Redis) : stats * Redis :=
match redis_keys "*" now r with
| (None, r') => (StatsError, r')
| (Some all_keys, r') =>
    (StatsConnected (length all_keys)
                    (foldl count_one ∅ (map prefix_of_key all_keys)), r')
end.

End Patterns.

(** The total of a table of counts. *)
Definition total_count_of (counts : gmap string nat) : nat :=
  map_fold (fun _ n acc => (n + acc)%nat) 0%nat counts.

(** A reference matcher for patterns made of literal characters, [?] and
    [*]. *)
Fixpoint glob_chars (p : list ascii) : list ascii -> bool :=
  match p with
  | [] => fun s => match s with [] => true | _ => false end
  | c :: p' =>
      if Ascii.eqb c "*" then
        fix star (s : list ascii) : bool :=
          glob_chars p' s || match s with [] => false | _ :: s' => star s' end
      else if Ascii.eqb c "?" then
        fun s => match s with [] => false | _ :: s' => glob_chars p' s' end
      else
        fun s => match s with
                 | [] => false
                 | c' :: s' => Ascii.eqb c c' && glob_chars p' s'
                 end
  end.

Definition ref_glob : Glob :=
  {| glob_match := fun pattern key =>
       glob_chars (list_ascii_of_string pattern) (list_ascii_of_string key) |}.

(** ** app/routers/analytics.py: the key of a comparison *)

(** The order of [str]: by code point, character after character. *)
Definition str_le (a b : string) : Prop := String.leb a b = true.

#[global] Instance str_le_dec : RelDecision str_le.
Proof. intros a b. unfold str_le. apply _. Defined.

(** [sorted] on a list of strings *)
Definition sorted_strings (l : list string) : list string :=
  merge_sort str_le l.

(** The [key_builder] of [compare_companies], line 269 *)
Definition compare_key_builder (company_ids : list string) : string :=
  "analytics:compare:" ++ String.concat "_" (sorted_strings company_ids).

(** ** Pagination, as every list endpoint computes it
    (app/routers/companies.py lines 37, 70 and 96-109, and the same lines
    of the other list endpoints) *)

Record PaginationMeta : Type := mkPagination {
  page : Z;
  per_page : Z;
  total_pages : Z;
  total_count : Z;
  has_next : bool;
  has_prev : bool;
  next_page : option Z;
  prev_page : option Z
}.

(** [offset = (page - 1) * per_page] *)
Definition offset_of (page per_page : Z) : Z := (page - 1) * per_page.

(** [query.range(offset, offset + per_page - 1)]: first and last index,
    both included. *)
Definition page_range (page per_page : Z) : Z * Z :=
  (offset_of page per_page, offset_of page per_page + per_page - 1).

Definition pagination_meta (page per_page total_count : Z) : PaginationMeta :=
  let total_pages := (total_count + per_page - 1) / per_page in
  let has_next := page <? total_pages in
  let has_prev := page >? 1 in
  mkPagination page per_page total_pages total_count has_next has_prev
               (if has_next then Some (page + 1) else None)
               (if has_prev then Some (page - 1) else None).

(** ** app/routers/api_keys.py: reading keys *)

(** [.order("created_at", desc=True)] *)
Definition created_desc (a b : APIKeyRow) : Prop :=
  row_created_at b <= row_created_at a.

#[global] Instance created_desc_dec : RelDecision created_desc.
Proof. intros a b. unfold created_desc. apply _. Defined.

(** [.select("*")], filtered on [is_active] unless asked otherwise, in
    the order of [created_at], latest first. *)
Definition db_select_keys (include_inactive : bool) (db : Database)
  : option (list APIKeyRow) * Database :=
  let '(fault, db') := db_next_fault db in
  if fault then (None, db')
  else
    (Some (merge_sort created_desc
             (if include_inactive then api_keys db'
              else List.filter row_is_active (api_keys db'))), db').

(** [list_api_keys], lines 111-143 *)
Definition list_api_keys (admin_key : APIKeyValidation) (include_inactive : bool)
    (db : Database) : outcome (list APIKeyInfo) * Database :=
  match db_select_keys include_inactive db with
  | (Some data, db') => (Return (map APIKeyInfo_of_row data), db')
  | (None, db') =>
      (Raise (HTTPException HTTP_500_INTERNAL_SERVER_ERROR "Error listing API keys"), db')
  end.

(** [get_api_key], lines 152-187 *)
Definition get_api_key (key_id : string) (admin_key : APIKeyValidation)
    (db : Database) : outcome APIKeyInfo * Database :=
  match db_select (fun r => String.eqb (row_id r) key_id) db with
  | (None, db') =>
      (Raise (HTTPException HTTP_500_INTERNAL_SERVER_ERROR "Error retrieving API key"), db')
  | (Some [], db') =>
      (Raise (HTTPException HTTP_404_NOT_FOUND "API key not found"), db')
  | (Some (row :: _), db') => (Return (APIKeyInfo_of_row row), db')
  end.

(** [verify_current_key], lines 403-436 *)
Definition verify_current_key (key_validation : APIKeyValidation) (db : Database)
  : outcome APIKeyInfo * Database :=
  match db_select (fun r => String.eqb (row_id r) (val_id key_validation)) db with
  | (None, db') =>
      (Raise (HTTPException HTTP_500_INTERNAL_SERVER_ERROR "Error verifying API key"), db')
  | (Some [], db') =>
      (Raise (HTTPException HTTP_404_NOT_FOUND "API key not found"), db')
  | (Some (row :: _), db') => (Return (APIKeyInfo_of_row row), db')
  end.

(** [GET /api-keys/verify/current]: [Security(verify_api_key)], then the
    handler. *)
Definition GET_verify_current (api_key : option string) (now : Z) (db : Database)
  : outcome APIKeyInfo * Database :=
  match verify_api_key api_key now db with
  | (Return key_validation, db') => verify_current_key key_validation db'
  | (Raise e, db') => (Raise e, db')
  end.

(** [POST /api-keys/{key_id}/activate] *)
Definition POST_activate (key_id : string) :=
  admin_route (activate_api_key key_id).

(** ** app/scripts/create_admin_key.py *)

(** How a run of the script ends: with the new key shown, with the
    operator declining, or with [sys.exit(1)]. *)
Inductive script_end : Type :=
| KeyShown (admin_key : string) (created_key : APIKeyRow)
| Aborted
| Exit1.

(** [response.lower() != 'y'] fails for [y] and [Y] alone. *)
Definition answered_yes (response : string) : bool :=
  String.eqb response "y" || String.eqb response "Y".

(** [create_admin_key], lines 18-87.  [response] is what the operator
    types when asked, [new_id] and [now] what the column defaults give
    the row. *)
Definition create_admin_key (name : string) (expires_at : option Z)
    (response : string) (src : entropy) (new_id : string) (now : Z) (db : Database)
  : script_end * Database * entropy :=
  let '(admin_key, src') := generate_api_key src in
  let key_hash := hash_api_key admin_key in
  let key_prefix := str_prefix 8 admin_key in
  match db_select row_is_admin db with
  | (None, db1) => (Exit1, db1, src')
  | (Some existing, db1) =>
      if match existing with [] => false | _ :: _ => negb (answered_yes response) end
      then (Aborted, db1, src')
      else
        match db_insert (mkRow new_id name key_hash key_prefix true true None now
                               None expires_at
                               (PyDict [("created_by_script", PyBool true)])) db1 with
        | (None, db2) => (Exit1, db2, src')
        | (Some [], db2) => (Exit1, db2, src')
        | (Some (created_key :: _), db2) => (KeyShown admin_key created_key, db2, src')
        end
  end.

(** ** Relations between states of the key table *)

(** Two rows that differ in [last_used_at] at most. *)
Definition same_but_last_used (r r' : APIKeyRow) : Prop :=
  set_last_used_at 0 r' = set_last_used_at 0 r.

(** What [update_api_key] may not touch: the identity of a row, its
    digest and prefix, its privilege and its origin. *)
Definition same_identity (r r' : APIKeyRow) : Prop :=
  row_id r' = row_id r /\ row_key_hash r' = row_key_hash r
  /\ row_key_prefix r' = row_key_prefix r /\ row_is_admin r' = row_is_admin r
  /\ row_created_by r' = row_created_by r /\ row_created_at r' = row_created_at r
  /\ row_last_used_at r' = row_last_used_at r.

(** No row of the table has this id. *)
Definition unknown_id (key_id : string) (db : Database) : Prop :=
  forall row, row ∈ api_keys db -> row_id row <> key_id.

(** The entry under [key], if any, has not expired. *)
Definition live_at (now : Z) (r : Redis) (key : string) : bool :=
  match kv r !! key with
  | Some (_, expires) => now <? expires
  | None => false
  end.

(** A cache store with some entries and a healthy schedule. *)
Definition three_entries : Redis :=
  mkRedis (<["analytics:overview" := ("1", 600)]>
             (<["analytics:risks" := ("2", 600)]>
                (<["company:detail:7:basic" := ("3", 300)]> ∅))) [].

Example sha256_abc :
  SHA256.hexdigest (utf8_encode "abc")
  = "ba7816bf8f01cfea414140de5dae2223b00361a396177a9cb410ff61f20015ad".
Proof. vm_compute. reflexivity. Qed.

Example sha256_empty :
  SHA256.hexdigest (utf8_encode "")
  = "e3b0c44298fc1c149afbf4c8996fb92427ae41e4649b934ca495991b7852b855".
Proof. vm_compute. reflexivity. Qed.

Example sha256_two_blocks :
  SHA256.hexdigest (utf8_encode "abcdbcdecdefdefgefghfghighijhijkijkljklmklmnlmnomnopnopq")
  = "248d6a61d20638b8e5c026930c3e6039a33ce45964ff2167f6ecedd419db06c1".
Proof. vm_compute. reflexivity. Qed.

Example token_urlsafe_zero :
  fst (generate_api_key (fun _ => 0)) = "AAAAAAAAAAAAAAAAAAAAAAAAAAAAAAAAAAAAAAAAAAA".
Proof. vm_compute. reflexivity. Qed.

Example token_urlsafe_ramp :
  fst (token_urlsafe 5 (fun i => 250 + Z.of_nat i)) = "-vv8_f4".
Proof. vm_compute. reflexivity. Qed.

Example dumps_nested :
  RefJson.dumps (PyDict [("data", PyList [PyInt 1; PyNone; PyStr "a\b"]); ("ok", PyBool true)])
  = String "{" (String RefJson.dquote
      ("data" ++ String RefJson.dquote (": [1, null, " ++ String RefJson.dquote
      ("a\\b" ++ String RefJson.dquote ("], " ++ String RefJson.dquote
      ("ok" ++ String RefJson.dquote ": true}")))))).
Proof. vm_compute. reflexivity. Qed.

Example loads_nested :
  RefJson.loads (RefJson.dumps
    (PyDict [("data", PyList [PyInt (-12); PyNone; PyStr "a\b"]); ("ok", PyBool true)]))
  = Some (PyDict [("data", PyList [PyInt (-12); PyNone; PyStr "a\b"]); ("ok", PyBool true)]).
Proof. vm_compute. reflexivity. Qed.

Example loads_bare_word : RefJson.loads "hello" = None.
Proof. vm_compute. reflexivity. Qed.

Example loads_null : RefJson.loads "null" = Some PyNone.
Proof. vm_compute. reflexivity. Qed.

Example loads_digits : RefJson.loads " 123 " = Some (PyInt 123).
Proof. vm_compute. reflexivity. Qed.

(** * Properties *)

(** ** The cache gateway *)

Lemma next_fault_kv (r : Redis) : kv (snd (next_fault r)) = kv r.
Proof. unfold next_fault. destruct (faults r); reflexivity. Qed.

Lemma next_fault_healthy (r : Redis) : faults r = [] -> next_fault r = (false, r).
Proof. unfold next_fault. intros ->. reflexivity. Qed.

Lemma raises_head (r : Redis) : raises r = true <-> head (faults r) = Some true.
Proof.
  unfold raises, next_fault. destruct (faults r) as [|[] fs]; simpl; split;
    intros; try discriminate; reflexivity.
Qed.

Lemma redis_get_raises key now r :
  raises r = true -> fst (redis_get key now r) = None.
Proof.
  unfold raises, redis_get. destruct (next_fault r) as [fault r']. simpl.
  intros ->. reflexivity.
Qed.

Lemma redis_get_kv key now r : kv (snd (redis_get key now r)) = kv r.
Proof.
  unfold redis_get. pose proof (next_fault_kv r) as H.
  destruct (next_fault r) as [[] r']; simpl in *; assumption.
Qed.

Lemma redis_set_raises key p ex now r :
  raises r = true ->
  fst (redis_set key p ex now r) = false /\ kv (snd (redis_set key p ex now r)) = kv r.
Proof.
  unfold raises, redis_set. pose proof (next_fault_kv r) as H.
  destruct (next_fault r) as [fault r']. simpl in *. intros ->. auto.
Qed.

Section CacheFacts.
Context {json : Json} {settings : Settings} {World : Type}.

Lemma get_cache_kv key now r : kv (snd (get_cache key now r)) = kv r.
Proof.
  unfold get_cache. pose proof (redis_get_kv key now r) as H.
  destruct (redis_get key now r) as [[[v|]|] r']; simpl in *; try assumption.
  destruct (str_truthy v); [destruct (json_loads v)|]; assumption.
Qed.

Lemma get_cache_raises key now r :
  raises r = true -> fst (get_cache key now r) = PyNone.
Proof.
  intros H. apply (redis_get_raises key now) in H.
  unfold get_cache. destruct (redis_get key now r) as [o r'].
  simpl in H. subst o. reflexivity.
Qed.

Lemma set_cache_raises key v ttl now r :
  raises r = true -> kv (snd (set_cache key v ttl now r)) = kv r.
Proof.
  intros H. unfold set_cache. destruct (payload_of v); [|reflexivity].
  apply redis_set_raises. assumption.
Qed.

(** A miss runs the operation once and hands back what it gave. *)
Lemma get_or_compute_miss key (f : compute World) ttl now w r :
  fst (get_cache key now r) = PyNone ->
  fst (get_or_compute key f ttl now w r) = f w.
Proof.
  unfold get_or_compute. destruct (get_cache key now r) as [c r1].
  simpl. intros ->. simpl. destruct (f w) as [[v|e] w']; [|reflexivity].
  destruct (set_cache key v ttl now r1). reflexivity.
Qed.

(** C5.  A store that raises on the read leaves [get_or_compute] to run
    the operation and hand back its result; a store that raises on the
    write after the operation returned leaves the result returned and
    the cache as it was.  Nothing the store raises reaches the caller. *)
Theorem get_or_compute_absorbs_store_errors
    (key : string) (f : compute World) (ttl : option Z) (now : Z) (w : World) (r : Redis) :
  (raises r = true -> fst (get_or_compute key f ttl now w r) = f w)
  /\ (forall v w' r1,
        get_cache key now r = (PyNone, r1) ->
        f w = (Return v, w') ->
        raises r1 = true ->
        exists r2, get_or_compute key f ttl now w r = (Return v, w', r2)
                   /\ kv r2 = kv r).
Proof.
  split.
  - intros H. apply get_or_compute_miss, get_cache_raises, H.
  - intros v w' r1 Hget Hf Hw.
    unfold get_or_compute. rewrite Hget. simpl. rewrite Hf.
    pose proof (set_cache_raises key v ttl now r1 Hw) as Hkv.
    destruct (set_cache key v ttl now r1) as [ok r2]. simpl in Hkv.
    exists r2. split; [reflexivity|].
    rewrite Hkv. rewrite <- (get_cache_kv key now r), Hget. reflexivity.
Qed.


Lemma redis_get_healthy key now r :
  raises r = false ->
  redis_get key now r =
    (Some (match kv r !! key with
           | Some (p, expires) => if now <? expires then Some p else None
           | None => None
           end), snd (next_fault r)).
Proof.
  unfold raises, redis_get. pose proof (next_fault_kv r) as H.
  destruct (next_fault r) as [fault r']. simpl in *. intros ->.
  rewrite H. reflexivity.
Qed.

(** A live entry with a non-empty payload is a hit unless the payload
    decodes to [None]. *)
Lemma get_cache_live key now r p expires :
  raises r = false ->
  kv r !! key = Some (p, expires) -> now < expires -> p <> "" ->
  get_cache key now r = (decode_payload p, snd (next_fault r)).
Proof.
  intros Hup Hk Hlive Hp. unfold get_cache, decode_payload.
  rewrite (redis_get_healthy _ _ _ Hup), Hk.
  apply Z.ltb_lt in Hlive. rewrite Hlive.
  destruct p as [|c p]; [congruence|]. simpl.
  destruct (json_loads (String c p)); reflexivity.
Qed.

(** C2, as the code has it.  When the store answers with a live
    payload that does not decode, the call does not fail.  An empty
    payload, or one on which the decoder raises something other than a
    [JSONDecodeError], is a miss: the operation runs and its result is
    returned.  A non-empty payload that is not JSON is handed back as a
    string: it is the result of the call, and the operation does not
    run. *)
Theorem get_or_compute_undecodable_payload
    (key : string) (f : compute World) (ttl : option Z) (now : Z)
    (w : World) (r : Redis) (p : string) (expires : Z) :
  raises r = false ->
  kv r !! key = Some (p, expires) ->
  now < expires ->
  (forall x, json_loads p <> Loaded x) ->
  (p = "" \/ json_loads p = OtherError ->
   fst (get_or_compute key f ttl now w r) = f w)
  /\ (p <> "" -> json_loads p = JSONDecodeError ->
      get_or_compute key f ttl now w r = (Return (PyStr p), w, snd (next_fault r))).
Proof.
  intros Hup Hk Hlive Hdec. split.
  - intros Hmiss. apply get_or_compute_miss. unfold get_cache.
    rewrite (redis_get_healthy _ _ _ Hup), Hk.
    apply Z.ltb_lt in Hlive. rewrite Hlive.
    destruct Hmiss as [->|Hother]; [reflexivity|].
    destruct (str_truthy p); [|reflexivity]. rewrite Hother. reflexivity.
  - intros Hp Herr. unfold get_or_compute.
    rewrite (get_cache_live _ _ _ _ _ Hup Hk Hlive Hp).
    unfold decode_payload. rewrite Herr. reflexivity.
Qed.


Lemma set_cache_healthy key v p ttl now r :
  raises r = false -> payload_of v = Some p -> 0 < resolve_ttl ttl ->
  set_cache key v ttl now r =
    (true, mkRedis (<[key := (p, now + resolve_ttl ttl)]> (kv r))
                   (faults (snd (next_fault r)))).
Proof.
  intros Hup Hp Httl. unfold set_cache, redis_set. rewrite Hp.
  unfold raises in Hup. pose proof (next_fault_kv r) as H.
  destruct (next_fault r) as [fault r']. simpl in *. subst fault.
  destruct (Z.leb_spec (resolve_ttl ttl) 0) as [Hle|_]; [lia|].
  rewrite H. reflexivity.
Qed.

(** C3, as the code has it.  With a healthy store, a first call that
    misses and whose operation returns a value other than [None], stored
    as a non-empty payload that reads back as that value, is followed,
    at any instant before the entry expires, by a hit: the second call
    returns the first operation's value and does not run its own. *)
Theorem get_or_compute_round_trip
    (key : string) (f g : compute World) (ttl ttl2 : option Z) (now now2 : Z)
    (w w1 : World) (r : Redis) (v : value) (p : string) :
  faults r = [] ->
  fst (get_cache key now r) = PyNone ->
  f w = (Return v, w1) ->
  v <> PyNone ->
  payload_of v = Some p ->
  p <> "" ->
  decode_payload p = v ->
  0 < resolve_ttl ttl ->
  now2 < now + resolve_ttl ttl ->
  exists r1,
    get_or_compute key f ttl now w r = (Return v, w1, r1)
    /\ get_or_compute key g ttl2 now2 w1 r1 = (Return v, w1, r1).
Proof.
  intros Hf0 Hmiss Hf Hv Hp Hpne Hdec Httl Hnow2.
  assert (Hup : raises r = false) by (unfold raises; now rewrite next_fault_healthy).
  set (r1 := mkRedis (<[key := (p, now + resolve_ttl ttl)]> (kv r)) []).
  assert (Hget : get_cache key now r = (PyNone, r)).
  { pose proof (get_cache_kv key now r) as Hkv. clear Hf.
    unfold get_cache in *. rewrite (redis_get_healthy _ _ _ Hup) in *.
    rewrite (next_fault_healthy _ Hf0) in *. simpl in *.
    destruct (kv r !! key) as [[q e]|]; [|reflexivity].
    destruct (now <? e); [|reflexivity].
    destruct (str_truthy q); [|reflexivity].
    destruct (json_loads q); simpl in *; subst; try reflexivity; discriminate. }
  exists r1. split.
  - unfold get_or_compute. rewrite Hget. simpl. rewrite Hf.
    rewrite (set_cache_healthy _ _ _ _ _ _ Hup Hp Httl).
    rewrite (next_fault_healthy _ Hf0). simpl. rewrite Hf0. reflexivity.
  - assert (Hup1 : raises r1 = false) by reflexivity.
    unfold get_or_compute.
    rewrite (get_cache_live key now2 r1 p (now + resolve_ttl ttl) Hup1);
      [|apply lookup_insert_eq|assumption|assumption].
    rewrite Hdec. destruct v; try reflexivity. congruence.
Qed.

Lemma get_cache_dead key now r :
  dead_entry key (kv r) -> fst (get_cache key now r) = PyNone.
Proof.
  unfold dead_entry. intros Hdead.
  destruct (raises r) eqn:Hup; [apply get_cache_raises; assumption|].
  unfold get_cache. rewrite (redis_get_healthy _ _ _ Hup).
  destruct (kv r !! key) as [[p e]|]; [|reflexivity].
  destruct (now <? e); [|reflexivity].
  destruct Hdead as [->|Hnull]; [reflexivity|].
  destruct (str_truthy p); [|reflexivity]. unfold decode_payload in Hnull.
  destruct (json_loads p); try reflexivity; [exact Hnull|discriminate].
Qed.

Lemma set_cache_dead key v ttl now r :
  json_null_law -> unservable v -> dead_entry key (kv r) ->
  dead_entry key (kv (snd (set_cache key v ttl now r))).
Proof.
  intros Hnull Hv Hdead. unfold set_cache.
  destruct (payload_of v) as [p|] eqn:Hp; [|assumption].
  unfold redis_set. pose proof (next_fault_kv r) as Hkv.
  destruct (next_fault r) as [[] r']; simpl in *; [congruence|].
  destruct (resolve_ttl ttl <=? 0); simpl; [congruence|].
  unfold dead_entry. rewrite lookup_insert_eq.
  destruct Hv as [->|Hv]; [right|left; congruence].
  unfold decode_payload. rewrite (Hnull _ Hp). reflexivity.
Qed.

(** With a dead entry under the key, a call runs the operation, and an
    operation that raises or returns an unservable value leaves the
    entry dead. *)
Lemma get_or_compute_dead key (f : compute World) ttl now w r :
  json_null_law -> dead_entry key (kv r) ->
  (forall v w', f w = (Return v, w') -> unservable v) ->
  fst (get_or_compute key f ttl now w r) = f w
  /\ dead_entry key (kv (snd (get_or_compute key f ttl now w r))).
Proof.
  intros Hnull Hdead Hf. split; [apply get_or_compute_miss, get_cache_dead, Hdead|].
  pose proof (get_cache_dead key now r Hdead) as Hmiss.
  pose proof (get_cache_kv key now r) as Hkv.
  unfold get_or_compute. destruct (get_cache key now r) as [c r1]. simpl in *.
  subst c. simpl. rewrite <- Hkv in Hdead.
  destruct (f w) as [[v|e] w'] eqn:Ef; [|assumption].
  pose proof (set_cache_dead key v ttl now r1 Hnull (Hf _ _ eq_refl) Hdead) as H.
  destruct (set_cache key v ttl now r1). assumption.
Qed.

Lemma call_each_dead key (f : compute World) ttl times :
  json_null_law ->
  (forall w, exists v w', f w = (Return v, w') /\ unservable v) ->
  forall w r, dead_entry key (kv r) ->
  fst (call_each key f ttl times w r) = invoke_each f (length times) w.
Proof.
  intros Hnull Hf. induction times as [|now later IH]; intros w r Hdead; [reflexivity|].
  assert (Hfw : forall v w', f w = (Return v, w') -> unservable v).
  { intros v w' E. destruct (Hf w) as (v0 & w0 & E0 & Hv0). congruence. }
  destruct (get_or_compute_dead key f ttl now w r Hnull Hdead Hfw) as [Hfst Hd].
  simpl. destruct (get_or_compute key f ttl now w r) as [[o w1] r1].
  simpl in Hfst, Hd. rewrite <- Hfst. specialize (IH w1 r1 Hd).
  destruct (call_each key f ttl later w1 r1) as [[os w2] r2]. simpl in IH.
  rewrite <- IH. reflexivity.
Qed.

(** C10.  Once a call has computed [None] or the empty string (a
    result stored as a payload the read takes for absent) and written
    its entry, the entry is there but no later call is served from it:
    every call under the key runs its operation, whatever the instant,
    and a run of calls of such an operation invokes it every time. *)
Theorem unservable_results_recomputed
    (key : string) (f : compute World) (ttl : option Z) (now : Z)
    (w w1 : World) (r r0 r1 : Redis) (v : value) :
  json_null_law ->
  get_cache key now r = (PyNone, r0) ->
  f w = (Return v, w1) ->
  unservable v ->
  set_cache key v ttl now r0 = (true, r1) ->
  get_or_compute key f ttl now w r = (Return v, w1, r1)
  /\ (exists p, payload_of v = Some p
                /\ kv r1 !! key = Some (p, now + resolve_ttl ttl))
  /\ (forall (g : compute World) ttl2 now2 w2 r2,
        kv r2 = kv r1 -> fst (get_or_compute key g ttl2 now2 w2 r2) = g w2)
  /\ (forall times,
        (forall w', exists v' w'', f w' = (Return v', w'') /\ unservable v') ->
        fst (call_each key f ttl times w1 r1) = invoke_each f (length times) w1).
Proof.
  intros Hnull Hget Hf Hv Hset.
  assert (Hentry : exists p, payload_of v = Some p
                   /\ kv r1 !! key = Some (p, now + resolve_ttl ttl)).
  { unfold set_cache in Hset. destruct (payload_of v) as [p|]; [|discriminate].
    exists p. split; [reflexivity|]. unfold redis_set in Hset.
    destruct (next_fault r0) as [[] r']; [discriminate|].
    destruct (resolve_ttl ttl <=? 0); [discriminate|].
    injection Hset as <-. simpl. apply lookup_insert_eq. }
  assert (Hdead : dead_entry key (kv r1)).
  { destruct Hentry as (p & Hp & Hk). unfold dead_entry. rewrite Hk.
    destruct Hv as [->|Hv]; [right|left; congruence].
    unfold decode_payload. rewrite (Hnull _ Hp). reflexivity. }
  split; [|split; [exact Hentry|split]].
  - unfold get_or_compute. rewrite Hget. simpl. rewrite Hf, Hset. reflexivity.
  - intros g ttl2 now2 w2 r2 Hkv. apply get_or_compute_miss, get_cache_dead.
    rewrite Hkv. exact Hdead.
  - intros times Hall. apply call_each_dead; assumption.
Qed.

End CacheFacts.

(** ** The cache gateway on concrete inputs *)

#[local] Existing Instance ref_json.
#[local] Existing Instance default_settings.
#[local] Existing Instance ref_builtins.

Lemma ref_json_null_law : json_null_law.
Proof. intros p H. injection H as <-. vm_compute. reflexivity. Qed.

(** C5 at a store whose next request raises: on the read, and on the
    write that follows a clean miss. *)
Lemma get_or_compute_absorbs_store_errors_witness :
  fst (get_or_compute "k" (counting (PyInt 7)) None 0 0%nat (empty_store [true]))
  = (Return (PyInt 7), 1%nat)
  /\ exists r2,
      get_or_compute "k" (counting (PyInt 7)) None 0 0%nat (empty_store [false; true])
      = (Return (PyInt 7), 1%nat, r2)
      /\ kv r2 = kv (empty_store [false; true]).
Proof.
  split.
  - apply (proj1 (get_or_compute_absorbs_store_errors
                    "k" (counting (PyInt 7)) None 0 0%nat (empty_store [true]))).
    reflexivity.
  - apply (proj2 (get_or_compute_absorbs_store_errors
                    "k" (counting (PyInt 7)) None 0 0%nat (empty_store [false; true]))
                 (PyInt 7) 1%nat (empty_store [true])); reflexivity.
Defined.

(** C2 fails: the live payload [hello] is not JSON, yet the call returns
    it, and the operation, whose result would have been 7, has not run. *)
Lemma undecodable_payload_is_served :
  kv (store_with "k" "hello" 100) !! "k" = Some ("hello", 100)
  /\ json_loads "hello" = JSONDecodeError
  /\ get_or_compute "k" (counting (PyInt 7)) None 0 0%nat (store_with "k" "hello" 100)
     = (Return (PyStr "hello"), 0%nat, store_with "k" "hello" 100)
  /\ fst (get_or_compute "k" (counting (PyInt 7)) None 0 0%nat (store_with "k" "hello" 100))
     <> counting (PyInt 7) 0%nat.
Proof. vm_compute. repeat split; discriminate. Qed.

Lemma get_or_compute_undecodable_payload_witness :
  get_or_compute "k" (counting (PyInt 7)) None 0 0%nat (store_with "k" "hello" 100)
  = (Return (PyStr "hello"), 0%nat, store_with "k" "hello" 100).
Proof.
  refine (proj2 (get_or_compute_undecodable_payload (json := ref_json)
                   "k" (counting (PyInt 7)) None 0 0%nat (store_with "k" "hello" 100)
                   "hello" 100 _ _ _ _) _ _);
    [reflexivity | reflexivity | reflexivity | vm_compute; discriminate
     | discriminate | vm_compute; reflexivity].
Defined.

(** C3 fails: the first operation returns [None], an entry [null] is
    written, and one second later, well within the five minutes, the
    second call runs its own operation and returns 7. *)
Lemma none_result_is_recomputed :
  get_or_compute "k" (counting PyNone) None 0 0%nat (empty_store [])
  = (Return PyNone, 1%nat, store_with "k" "null" 300)
  /\ get_or_compute "k" (counting (PyInt 7)) None 1 1%nat (store_with "k" "null" 300)
     = (Return (PyInt 7), 2%nat, store_with "k" "7" 301).
Proof. vm_compute. split; reflexivity. Qed.

(** The string result [123] is stored as it is and read back as the
    number 123. *)
Example numeric_string_read_back_as_number :
  get_or_compute "k" (counting (PyStr "123")) None 0 0%nat (empty_store [])
  = (Return (PyStr "123"), 1%nat, store_with "k" "123" 300)
  /\ get_or_compute "k" (counting PyNone) None 1 1%nat (store_with "k" "123" 300)
     = (Return (PyInt 123), 1%nat, store_with "k" "123" 300).
Proof. vm_compute. split; reflexivity. Qed.

Lemma get_or_compute_round_trip_witness :
  exists r1,
    get_or_compute "k" (counting (PyDict [("data", PyList [PyInt 7; PyStr "x"])]))
                   (Some 600) 0 0%nat (empty_store [])
    = (Return (PyDict [("data", PyList [PyInt 7; PyStr "x"])]), 1%nat, r1)
    /\ get_or_compute "k" (counting PyNone) None 599 1%nat r1
       = (Return (PyDict [("data", PyList [PyInt 7; PyStr "x"])]), 1%nat, r1).
Proof.
  refine (get_or_compute_round_trip (json := ref_json) (settings := default_settings)
            "k" (counting (PyDict [("data", PyList [PyInt 7; PyStr "x"])]))
            (counting PyNone) (Some 600) None 0 599 0%nat 1%nat (empty_store [])
            (PyDict [("data", PyList [PyInt 7; PyStr "x"])])
            (RefJson.dumps (PyDict [("data", PyList [PyInt 7; PyStr "x"])]))
            _ _ _ _ _ _ _ _ _);
    try reflexivity; try discriminate; vm_compute; reflexivity.
Defined.

Lemma unservable_results_recomputed_witness :
  get_or_compute "k" (counting PyNone) None 0 0%nat (empty_store [])
  = (Return PyNone, 1%nat, store_with "k" "null" 300)
  /\ fst (get_or_compute "k" (counting (PyInt 7)) None 1 1%nat (store_with "k" "null" 300))
     = counting (PyInt 7) 1%nat
  /\ fst (call_each "k" (counting PyNone) None [1; 2; 3] 1%nat (store_with "k" "null" 300))
     = invoke_each (counting PyNone) 3 1%nat.
Proof.
  pose proof (unservable_results_recomputed (json := ref_json) (settings := default_settings)
                "k" (counting PyNone) None 0 0%nat 1%nat
                (empty_store []) (empty_store []) (store_with "k" "null" 300) PyNone
                ref_json_null_law eq_refl eq_refl (or_introl eq_refl)) as H.
  destruct H as (H1 & _ & H3 & H4); [vm_compute; reflexivity|].
  split; [exact H1|split].
  - apply H3. reflexivity.
  - apply (H4 [1; 2; 3]). intros w'. exists PyNone, (S w').
    split; [reflexivity|left; reflexivity].
Defined.

(** ** Cache keys *)

Lemma leb_trans (s1 s2 s3 : string) :
  String.leb s1 s2 = true -> String.leb s2 s3 = true -> String.leb s1 s3 = true.
Proof.
  destruct String_as_OT.lt_strorder as [Hirr Htr].
  unfold String.leb. change String.compare with String_as_OT.compare.
  destruct (String_as_OT.compare_spec s1 s2) as [E12|H12|H12];
    destruct (String_as_OT.compare_spec s2 s3) as [E23|H23|H23];
    try discriminate; intros _ _; unfold String_as_OT.eq in *; subst.
  - destruct (String_as_OT.compare_spec s3 s3) as [H|H|H]; try reflexivity.
    destruct (Hirr _ H).
  - unfold String_as_OT.lt in H23. rewrite H23. reflexivity.
  - unfold String_as_OT.lt in H12. rewrite H12. reflexivity.
  - assert (H : String_as_OT.lt s1 s3) by (eapply Htr; eassumption).
    unfold String_as_OT.lt in H. rewrite H. reflexivity.
Qed.

#[local] Instance item_le_trans : Transitive item_le.
Proof. intros x y z. unfold item_le. apply leb_trans. Qed.

#[local] Instance item_le_total : Total item_le.
Proof. intros x y. unfold item_le. apply String.leb_total. Qed.

(** In a dictionary a name has one value. *)
Lemma dict_functional (items : list (string * value)) k v1 v2 :
  NoDup items.*1 -> (k, v1) ∈ items -> (k, v2) ∈ items -> v1 = v2.
Proof.
  induction items as [|[k' v'] items IH]; simpl; intros Hnd H1 H2.
  - inversion H1.
  - apply NoDup_cons in Hnd as [Hk' Hnd].
    apply elem_of_cons in H1 as [E1|H1]; apply elem_of_cons in H2 as [E2|H2].
    + congruence.
    + injection E1 as -> ->. destruct Hk'.
      apply (list_elem_of_fmap_2 fst) in H2. exact H2.
    + injection E2 as -> ->. destruct Hk'.
      apply (list_elem_of_fmap_2 fst) in H1. exact H1.
    + auto.
Qed.

Lemma sorted_Sorted (items : list (string * value)) : Sorted item_le (sorted items).
Proof. unfold sorted. apply (Sorted_merge_sort item_le). Qed.

Lemma sorted_Permutation (items : list (string * value)) : sorted items ≡ₚ items.
Proof. unfold sorted. apply merge_sort_Permutation. Qed.

(** Sorting forgets the order in which a dictionary was filled. *)
Lemma sorted_order_independent (items1 items2 : list (string * value)) :
  NoDup items1.*1 -> items1 ≡ₚ items2 -> sorted items1 = sorted items2.
Proof.
  intros Hnd Hperm.
  apply (Sorted_unique_strong item_le).
  - intros [k1 v1] [k2 v2] H1 H2 Hle Hge. unfold item_le in *. simpl in *.
    assert (k1 = k2) as <- by (apply String.leb_antisym; assumption).
    f_equal. apply (dict_functional items1 k1); [assumption| |].
    + rewrite <- (sorted_Permutation items1). exact H1.
    + rewrite Hperm, <- (sorted_Permutation items2). exact H2.
  - apply sorted_Sorted.
  - apply sorted_Sorted.
  - rewrite !sorted_Permutation. exact Hperm.
Qed.

Lemma present_NoDup (params : list (string * value)) :
  NoDup params.*1 -> NoDup (present params).*1.
Proof.
  intros H. eapply sublist_NoDup; [exact H|].
  apply fmap_sublist. unfold present. apply sublist_filter.
Qed.

Section KeyFacts.
Context {builtins : Builtins}.

(** C6, as the code has it.  [build_query_cache_key] drops the
    parameters whose value is [None], and only those, orders the rest
    by name and appends the [name=value] pairs, joined by [_], to the
    prefix after a colon: two dictionaries with the same parameters
    other than [None], filled in any order, give the same key, so a
    parameter that is [None] is as good as left out. *)
Theorem build_query_cache_key_order_independent
    (prefix : string) (params1 params2 : list (string * value)) :
  NoDup params1.*1 ->
  NoDup params2.*1 ->
  present params1 ≡ₚ present params2 ->
  build_query_cache_key prefix params1 = build_query_cache_key prefix params2
  /\ exists items,
      items ≡ₚ present params1
      /\ Sorted item_le items
      /\ build_query_cache_key prefix params1 =
         match items with
         | [] => prefix
         | _ => prefix ++ ":" ++
                String.concat "_" (map (fun kv => fst kv ++ "=" ++ py_str (snd kv)) items)
         end.
Proof.
  intros Hnd1 _ Hperm. split.
  - unfold build_query_cache_key. fold (present params1) (present params2).
    rewrite (sorted_order_independent _ _ (present_NoDup _ Hnd1) Hperm).
    destruct (present params1) as [|x l1] eqn:E1;
      destruct (present params2) as [|y l2] eqn:E2; try reflexivity.
    + apply Permutation_nil_l in Hperm. discriminate.
    + apply Permutation_nil_r in Hperm. discriminate.
  - exists (sorted (present params1)).
    split; [apply sorted_Permutation|split; [apply sorted_Sorted|]].
    unfold build_query_cache_key. fold (present params1).
    pose proof (sorted_Permutation (present params1)) as Hs.
    destruct (present params1) as [|x l1].
    + apply Permutation_nil_r in Hs. rewrite Hs. reflexivity.
    + destruct (sorted (x :: l1)); [|reflexivity].
      apply Permutation_nil_l in Hs. discriminate.
Qed.

(** C7, as the code has it.  The default key of [cached] is built from
    the prefix, the positional arguments other than [None] in call
    order and the named arguments other than [None] in the order they
    are supplied: invocations that agree on these produce the same key.
    The named arguments are not put in a canonical order. *)
Theorem default_cache_key_deterministic
    (key_prefix : string) (args1 args2 : list value)
    (kwargs1 kwargs2 : list (string * value)) :
  filter (fun a => is_not_none a = true) args1
    = filter (fun a => is_not_none a = true) args2 ->
  present kwargs1 = present kwargs2 ->
  default_cache_key key_prefix args1 kwargs1 = default_cache_key key_prefix args2 kwargs2.
Proof.
  intros Hargs Hkw. unfold default_cache_key.
  fold (present kwargs1) (present kwargs2). rewrite Hargs, Hkw. reflexivity.
Qed.

End KeyFacts.

(** C6 on the two examples of the specification. *)
Lemma build_query_cache_key_order_independent_witness :
  build_query_cache_key "p" [("a", PyInt 1); ("b", PyInt 2)]
  = build_query_cache_key "p" [("b", PyInt 2); ("a", PyInt 1)]
  /\ build_query_cache_key "p" [("a", PyInt 1); ("b", PyNone)]
     = build_query_cache_key "p" [("a", PyInt 1)].
Proof.
  split.
  - apply (build_query_cache_key_order_independent (builtins := ref_builtins) "p"
             [("a", PyInt 1); ("b", PyInt 2)] [("b", PyInt 2); ("a", PyInt 1)]).
    + apply (bool_decide_unpack _). vm_compute. exact I.
    + apply (bool_decide_unpack _). vm_compute. exact I.
    + apply Permutation_swap.
  - apply (build_query_cache_key_order_independent (builtins := ref_builtins) "p"
             [("a", PyInt 1); ("b", PyNone)] [("a", PyInt 1)]).
    + apply (bool_decide_unpack _). vm_compute. exact I.
    + apply (bool_decide_unpack _). vm_compute. exact I.
    + reflexivity.
Defined.

(** C6 fails where it has empty values filtered out: a parameter whose
    value is the empty string stays in the key, so two dictionaries with
    the same non-empty parameters get two keys. *)
Lemma build_query_cache_key_keeps_empty_values :
  build_query_cache_key "p" [("a", PyInt 1); ("b", PyStr "")] = "p:a=1_b="
  /\ build_query_cache_key "p" [("a", PyInt 1)] = "p:a=1"
  /\ build_query_cache_key "p" [("a", PyInt 1); ("b", PyStr "")]
     <> build_query_cache_key "p" [("a", PyInt 1)].
Proof. vm_compute. repeat split. discriminate. Qed.

(** C7 fails: the same two named arguments in the two orders give two
    keys, so the second of the two calls is not served the entry the
    first one wrote. *)
Lemma default_cache_key_follows_call_order :
  [("page", PyInt 1); ("sort", PyStr "name")] ≡ₚ [("sort", PyStr "name"); ("page", PyInt 1)]
  /\ default_cache_key "companies:list" [] [("page", PyInt 1); ("sort", PyStr "name")]
     = "companies:list:page=1_sort=name"
  /\ default_cache_key "companies:list" [] [("sort", PyStr "name"); ("page", PyInt 1)]
     = "companies:list:sort=name_page=1"
  /\ default_cache_key "companies:list" [] [("page", PyInt 1); ("sort", PyStr "name")]
     <> default_cache_key "companies:list" [] [("sort", PyStr "name"); ("page", PyInt 1)].
Proof.
  split; [apply Permutation_swap|]. vm_compute. repeat split. discriminate.
Qed.

Lemma default_cache_key_deterministic_witness :
  default_cache_key "companies:list" [PyNone; PyInt 3]
                    [("page", PyInt 1); ("industry", PyNone); ("sort", PyStr "name")]
  = default_cache_key "companies:list" [PyInt 3]
                      [("page", PyInt 1); ("sort", PyStr "name")].
Proof.
  apply (default_cache_key_deterministic (builtins := ref_builtins)); reflexivity.
Defined.

(** ** Secrets and digests *)

Lemma length_string_of_list_ascii (cs : list ascii) :
  String.length (string_of_list_ascii cs) = length cs.
Proof. induction cs as [|c cs IH]; simpl; congruence. Qed.

Lemma length_list_ascii_of_string (s : string) :
  length (list_ascii_of_string s) = String.length s.
Proof. induction s as [|c s IH]; simpl; congruence. Qed.

Lemma length_append (s1 s2 : string) :
  String.length (s1 ++ s2) = (String.length s1 + String.length s2)%nat.
Proof.
  induction s1 as [|c s1 IH]; [reflexivity|].
  change (S (String.length (s1 ++ s2)) = S (String.length s1 + String.length s2)).
  rewrite IH. reflexivity.
Qed.

Lemma length_hex (n : nat) (x : Z) : String.length (SHA256.hex n x) = n.
Proof. induction n as [|n IH]; simpl; congruence. Qed.

(** A digest is 64 hexadecimal digits. *)
Lemma length_hash_api_key (api_key : string) :
  String.length (hash_api_key api_key) = 64%nat.
Proof.
  unfold hash_api_key, SHA256.hexdigest.
  rewrite !length_append, !length_hex. reflexivity.
Qed.

Lemma length_str_prefix (n : nat) (s : string) :
  (String.length (str_prefix n s) <= n)%nat.
Proof.
  unfold str_prefix. rewrite length_string_of_list_ascii, length_take. lia.
Qed.

Lemma digit_index (i : Z) :
  0 <= i < 64 ->
  Base64.index (Base64.digit i) = i /\ url_safe (Base64.digit i) = true.
Proof.
  intros Hi.
  assert (Hall : forallb (fun n => (Base64.index (Base64.digit (Z.of_nat n)) =? Z.of_nat n)
                                   && url_safe (Base64.digit (Z.of_nat n)))
                         (seq 0 64) = true) by (vm_compute; reflexivity).
  rewrite forallb_forall in Hall.
  specialize (Hall (Z.to_nat i)). rewrite Z2Nat.id in Hall by lia.
  apply andb_prop in Hall as [H1 H2]; [|apply in_seq; lia].
  apply Z.eqb_eq in H1. auto.
Qed.

Lemma index_digit (i : Z) : 0 <= i < 64 -> Base64.index (Base64.digit i) = i.
Proof. intros Hi. apply digit_index, Hi. Qed.

Lemma url_safe_digit (i : Z) : 0 <= i < 64 -> url_safe (Base64.digit i) = true.
Proof. intros Hi. apply digit_index, Hi. Qed.

Lemma decode_encode (bs : list Z) :
  Forall is_byte bs -> Base64.decode (Base64.encode bs) = bs.
Proof.
  revert bs.
  assert (Hstep : forall n bs, (length bs <= n)%nat -> Forall is_byte bs ->
                               Base64.decode (Base64.encode bs) = bs).
  { induction n as [|n IH]; intros bs Hlen Hb.
    - destruct bs; [reflexivity|simpl in Hlen; lia].
    - destruct bs as [|a [|b [|c rest]]]; [reflexivity| | |].
      + apply Forall_cons in Hb as [Ha _]. unfold is_byte in Ha. simpl.
        rewrite !index_digit by (Z.div_mod_to_equations; lia).
        f_equal. Z.div_mod_to_equations; lia.
      + apply Forall_cons in Hb as [Ha Hb]. apply Forall_cons in Hb as [Hb _].
        unfold is_byte in *. simpl.
        rewrite !index_digit by (Z.div_mod_to_equations; lia).
        f_equal; [|f_equal]; Z.div_mod_to_equations; lia.
      + apply Forall_cons in Hb as [Ha Hb]. apply Forall_cons in Hb as [Hb Hc].
        apply Forall_cons in Hc as [Hc Hrest]. unfold is_byte in *.
        change (Base64.encode (a :: b :: c :: rest))
          with (Base64.digit (a / 4) :: Base64.digit (a mod 4 * 16 + b / 16)
                :: Base64.digit (b mod 16 * 4 + c / 64) :: Base64.digit (c mod 64)
                :: Base64.encode rest).
        change (Base64.decode (?p :: ?q :: ?r :: ?s :: ?cs))
          with ((Base64.index p * 4 + Base64.index q / 16)
                :: (Base64.index q mod 16 * 16 + Base64.index r / 4)
                :: (Base64.index r mod 4 * 64 + Base64.index s) :: Base64.decode cs).
        rewrite !index_digit by (Z.div_mod_to_equations; lia).
        rewrite (IH rest) by (simpl in Hlen; lia || assumption).
        f_equal; [|f_equal; [|f_equal]]; Z.div_mod_to_equations; lia. }
  intros bs. apply (Hstep (length bs)). lia.
Qed.

Lemma token_bytes_bytes (n : nat) (src : entropy) :
  Forall is_byte (fst (token_bytes n src)) /\ length (fst (token_bytes n src)) = n.
Proof.
  unfold token_bytes. simpl. split.
  - apply Forall_forall. intros b Hb. apply list_elem_of_In, in_map_iff in Hb.
    destruct Hb as (i & <- & _). unfold is_byte. apply Z.mod_pos_bound. lia.
  - rewrite length_map, length_seq. reflexivity.
Qed.

Lemma encode_url_safe (bs : list Z) :
  Forall is_byte bs -> forallb url_safe (Base64.encode bs) = true.
Proof.
  assert (Hstep : forall n bs, (length bs <= n)%nat -> Forall is_byte bs ->
                               forallb url_safe (Base64.encode bs) = true).
  { induction n as [|n IH]; intros l Hlen Hb.
    - destruct l; [reflexivity|simpl in Hlen; lia].
    - destruct l as [|a [|b [|c rest]]]; [reflexivity| | |].
      + apply Forall_cons in Hb as [Ha _]. unfold is_byte in Ha. simpl.
        rewrite !url_safe_digit by (Z.div_mod_to_equations; lia). reflexivity.
      + apply Forall_cons in Hb as [Ha Hb]. apply Forall_cons in Hb as [Hb _].
        unfold is_byte in *. simpl.
        rewrite !url_safe_digit by (Z.div_mod_to_equations; lia). reflexivity.
      + apply Forall_cons in Hb as [Ha Hb]. apply Forall_cons in Hb as [Hb Hc].
        apply Forall_cons in Hc as [Hc Hrest]. unfold is_byte in *.
        change (Base64.encode (a :: b :: c :: rest))
          with (Base64.digit (a / 4) :: Base64.digit (a mod 4 * 16 + b / 16)
                :: Base64.digit (b mod 16 * 4 + c / 64) :: Base64.digit (c mod 64)
                :: Base64.encode rest).
        simpl. rewrite !url_safe_digit by (Z.div_mod_to_equations; lia).
        simpl. apply IH; [simpl in Hlen; lia|assumption]. }
  intros Hb. apply (Hstep (length bs)); [lia|assumption].
Qed.

(** [generate_api_key]: 43 URL-safe characters from which the 32 bytes
    drawn from the entropy source, all 256 bits of them, read back. *)
Lemma generate_api_key_spec (src : entropy) :
  let new_key := fst (generate_api_key src) in
  String.length new_key = 43%nat
  /\ forallb url_safe (list_ascii_of_string new_key) = true
  /\ Base64.decode (list_ascii_of_string new_key) = fst (token_bytes 32 src).
Proof.
  unfold generate_api_key, token_urlsafe.
  destruct (token_bytes_bytes 32 src) as [Hb Hlen].
  destruct (token_bytes 32 src) as [tok src'] eqn:E. simpl in *.
  rewrite list_ascii_of_string_of_list_ascii, length_string_of_list_ascii.
  split; [|split; [apply encode_url_safe, Hb|apply decode_encode, Hb]].
  do 32 (destruct tok as [|? tok]; [discriminate Hlen|]).
  destruct tok; [|discriminate Hlen]. reflexivity.
Qed.

(** Two draws that differ in one of the 32 bytes give two secrets. *)
Lemma generate_api_key_injective (src1 src2 : entropy) :
  fst (generate_api_key src1) = fst (generate_api_key src2) ->
  forall i, (i < 32)%nat -> src1 i mod 256 = src2 i mod 256.
Proof.
  intros Hkey i Hi.
  pose proof (generate_api_key_spec src1) as H1. cbv zeta in H1.
  pose proof (generate_api_key_spec src2) as H2. cbv zeta in H2.
  destruct H1 as (_ & _ & H1). destruct H2 as (_ & _ & H2).
  rewrite Hkey, H2 in H1. unfold token_bytes in H1. simpl fst in H1.
  apply (f_equal (fun l => nth i l 0)) in H1.
  do 32 (destruct i as [|i]; [symmetry; exact H1|]). lia.
Qed.

(** ** The authenticator *)

Lemma db_next_fault_healthy (db : Database) :
  db_faults db = [] -> db_next_fault db = (false, db).
Proof. unfold db_next_fault. intros ->. reflexivity. Qed.

Lemma head_filter_find {A : Type} (p : A -> bool) (l : list A) :
  head (List.filter p l) = List.find p l.
Proof.
  induction l as [|x l IH]; [reflexivity|]. simpl.
  destruct (p x); [reflexivity|exact IH].
Qed.

(** No stored digest is the digest of the credential. *)
Lemma matched_record_None (db : Database) (key : string) :
  matched_record db key = None <->
  forall row, row ∈ api_keys db -> row_key_hash row <> hash_api_key key.
Proof.
  unfold matched_record. split.
  - intros H row Hin E. apply list_elem_of_In in Hin.
    pose proof (find_none _ _ H row Hin) as Hne. simpl in Hne.
    apply String.eqb_neq in Hne. contradiction.
  - intros H. destruct (find _ _) as [row|] eqn:E; [|reflexivity].
    apply find_some in E as [Hin Heq]. apply String.eqb_eq in Heq.
    apply list_elem_of_In in Hin. destruct (H row Hin Heq).
Qed.

Lemma verify_api_key_healthy (c : ascii) (key : string) (now : Z) (db : Database) :
  db_faults db = [] ->
  fst (verify_api_key (Some (String c key)) now db)
  = verdict now (matched_record db (String c key)).
Proof.
  intros Hup. unfold verify_api_key, db_select, matched_record.
  rewrite (db_next_fault_healthy _ Hup). rewrite <- head_filter_find.
  destruct (List.filter _ (api_keys db)) as [|row rows]; [reflexivity|].
  simpl. unfold principal_of.
  destruct (row_is_active row); [|reflexivity]. simpl.
  destruct (match row_expires_at row with Some e => now >? e | None => false end);
    [reflexivity|].
  destruct (db_update _ _ db). reflexivity.
Qed.

(** C1.  With the key-record store answering, [verify_api_key] rejects
    with 401 exactly when the header is absent or empty, when no stored
    digest is the digest of the credential, when the record matched is
    not active, or when its expiry is set and strictly before the current
    time.  Otherwise the principal of the matched record is returned, and
    the admin gate lets it through if it is an admin and rejects it with
    403 if it is not. *)
Theorem verify_api_key_policy (api_key : option string) (now : Z) (db : Database) :
  db_faults db = [] ->
  let result := fst (verify_api_key api_key now db) in
  let unauthenticated :=
    exists detail, result = Raise (HTTPException HTTP_401_UNAUTHORIZED detail) in
  (unauthenticated <->
     api_key = None \/ api_key = Some "" \/
     exists key, api_key = Some key /\
       ((forall row, row ∈ api_keys db -> row_key_hash row <> hash_api_key key)
        \/ exists row, matched_record db key = Some row /\
             (row_is_active row = false
              \/ exists expiry, row_expires_at row = Some expiry /\ expiry < now)))
  /\ (~ unauthenticated ->
      exists key row,
        api_key = Some key /\ matched_record db key = Some row
        /\ result = Return (principal_of row)
        /\ fst (Security_require_admin_key api_key now db) =
           if row_is_admin row then Return (principal_of row)
           else Raise (HTTPException HTTP_403_FORBIDDEN
                         "Admin API key required for this operation")).
Proof.
  intros Hup result unauthenticated. subst unauthenticated result.
  destruct api_key as [[|c key]|].
  - split; [split; [auto|intros _; eexists; reflexivity]|].
    intros H. destruct H. eexists. reflexivity.
  - assert (Hsec : forall p, fst (verify_api_key (Some (String c key)) now db) = Return p ->
                   fst (Security_require_admin_key (Some (String c key)) now db)
                   = require_admin_key p).
    { intros p Hp. unfold Security_require_admin_key.
      destruct (verify_api_key (Some (String c key)) now db) as [[q|e] db'];
        simpl in Hp; [|discriminate]. injection Hp as ->. reflexivity. }
    rewrite (verify_api_key_healthy c key now db Hup) in *.
    destruct (matched_record db (String c key)) as [row|] eqn:Hm; simpl.
    + destruct (row_is_active row) eqn:Hact; simpl.
      * destruct (row_expires_at row) as [expiry|] eqn:Hexp.
        -- destruct (Z.gtb_spec now expiry) as [Hgt|Hle].
           ++ split; [split; [|intros _; eexists; reflexivity]|].
              ** intros _. right. right. exists (String c key). split; [reflexivity|].
                 right. exists row. split; [exact Hm|]. right. exists expiry.
                 split; [exact Hexp|lia].
              ** intros H. destruct H. eexists. reflexivity.
           ++ split; [split|].
              ** intros [d Hd]. discriminate.
              ** intros [H|[H|(k & Hk & [Hnone|(row' & Hrow' & [Hin|(e & He & Hlt)])])]];
                   try discriminate; injection Hk as <-.
                 --- apply matched_record_None in Hnone. congruence.
                 --- congruence.
                 --- assert (row' = row) as -> by congruence.
                     assert (e = expiry) as -> by congruence. lia.
              ** intros _. exists (String c key), row.
                 split; [reflexivity|split; [exact Hm|split; [reflexivity|]]].
                 rewrite (Hsec (principal_of row)).
                 --- unfold require_admin_key. simpl. destruct (row_is_admin row); reflexivity.
                 --- simpl. rewrite Hact, Hexp. simpl.
                     destruct (Z.gtb_spec now expiry); [lia|reflexivity].
        -- split; [split|].
           ++ intros [d Hd]. discriminate.
           ++ intros [H|[H|(k & Hk & [Hnone|(row' & Hrow' & [Hin|(e & He & Hlt)])])]];
                try discriminate; injection Hk as <-.
              ** apply matched_record_None in Hnone. congruence.
              ** congruence.
              ** congruence.
           ++ intros _. exists (String c key), row.
              split; [reflexivity|split; [exact Hm|split; [reflexivity|]]].
              rewrite (Hsec (principal_of row)).
              ** unfold require_admin_key. simpl. destruct (row_is_admin row); reflexivity.
              ** simpl. rewrite Hact, Hexp. reflexivity.
      * split; [split; [|intros _; eexists; reflexivity]|].
        -- intros _. right. right. exists (String c key). split; [reflexivity|].
           right. exists row. split; [exact Hm|]. left. exact Hact.
        -- intros H. destruct H. eexists. reflexivity.
    + split; [split; [|intros _; eexists; reflexivity]|].
      * intros _. right. right. exists (String c key). split; [reflexivity|].
        left. apply matched_record_None. exact Hm.
      * intros H. destruct H. eexists. reflexivity.
  - split; [split; [auto|intros _; eexists; reflexivity]|].
    intros H. destruct H. eexists. reflexivity.
Qed.

(** C1 on the table of two keys: the plain key is accepted before its
    expiry and stopped by the admin gate, and rejected after its expiry. *)
Lemma verify_api_key_policy_witness :
  (fst (verify_api_key (Some "reader-secret") 10 two_keys) = Return (principal_of reader_row)
   /\ fst (Security_require_admin_key (Some "reader-secret") 10 two_keys)
      = Raise (HTTPException HTTP_403_FORBIDDEN "Admin API key required for this operation"))
  /\ exists detail,
      fst (verify_api_key (Some "reader-secret") 1001 two_keys)
      = Raise (HTTPException HTTP_401_UNAUTHORIZED detail).
Proof.
  assert (Hm : matched_record two_keys "reader-secret" = Some reader_row)
    by (vm_compute; reflexivity).
  split.
  - destruct (proj2 (verify_api_key_policy (Some "reader-secret") 10 two_keys eq_refl))
      as (key & row & Hk & Hrow & Hres & Hgate).
    + intros [detail Hd]. vm_compute in Hd. discriminate.
    + injection Hk as <-. rewrite Hm in Hrow. injection Hrow as <-.
      split; [exact Hres|exact Hgate].
  - apply (proj2 (proj1 (verify_api_key_policy (Some "reader-secret") 1001 two_keys eq_refl))).
    right. right. exists "reader-secret". split; [reflexivity|].
    right. exists reader_row. split; [exact Hm|].
    right. exists 1000. split; [reflexivity|lia].
Defined.

(** ** Key management *)

(** C9.  [deactivate_api_key] and [delete_api_key] called on the acting
    admin's own id reject with 400 and hand the store back as it was. *)
Theorem self_target_rejected_before_mutation (admin_key : APIKeyValidation) (db : Database) :
  deactivate_api_key (val_id admin_key) admin_key db
  = (Raise (HTTPException HTTP_400_BAD_REQUEST
              "Cannot deactivate the API key you are currently using"), db)
  /\ delete_api_key (val_id admin_key) admin_key db
     = (Raise (HTTPException HTTP_400_BAD_REQUEST
                 "Cannot delete the API key you are currently using"), db).
Proof.
  unfold deactivate_api_key, delete_api_key.
  rewrite String.eqb_refl. split; reflexivity.
Qed.

(** C8.  When the store takes the insert, [create_api_key] answers with
    a raw secret of 43 URL-safe characters that carries the 32 bytes drawn
    from the entropy source; the one row added holds the digest of that
    secret and its first 8 characters, the response shows the same prefix,
    and the row is built from the request, the acting admin, the digest
    and the prefix alone: no column is the raw secret. *)
Theorem create_api_key_secret
    (key_data : APIKeyCreate) (admin_key : APIKeyValidation) (src : entropy)
    (new_id : string) (now : Z) (db : Database) :
  db_raises db = false ->
  exists resp row db',
    create_api_key key_data admin_key src new_id now db
    = (Return resp, db', snd (generate_api_key src))
    /\ api_keys db' = (api_keys db ++ [row])%list
    /\ resp_key resp = fst (generate_api_key src)
    /\ String.length (resp_key resp) = 43%nat
    /\ forallb url_safe (list_ascii_of_string (resp_key resp)) = true
    /\ Base64.decode (list_ascii_of_string (resp_key resp)) = fst (token_bytes 32 src)
    /\ row_key_hash row = hash_api_key (resp_key resp)
    /\ row_key_prefix row = str_prefix 8 (resp_key resp)
    /\ resp_key_prefix resp = str_prefix 8 (resp_key resp)
    /\ row = mkRow new_id (new_name key_data) (hash_api_key (resp_key resp))
                   (str_prefix 8 (resp_key resp)) (new_is_admin key_data) true
                   (Some (val_id admin_key)) now None (new_expires_at key_data)
                   (new_metadata key_data)
    /\ row_key_hash row <> resp_key resp
    /\ row_key_prefix row <> resp_key resp.
Proof.
  intros Hup. unfold create_api_key, db_insert.
  pose proof (generate_api_key_spec src) as Hgen. cbv zeta in Hgen.
  destruct (generate_api_key src) as [new_key src'] eqn:Egen. simpl fst in Hgen.
  destruct Hgen as (Hlen & Hsafe & Hdec).
  unfold db_raises in Hup. destruct (db_next_fault db) as [fault db1] eqn:Efault.
  simpl in Hup. subst fault.
  assert (Hrows : api_keys db1 = api_keys db).
  { unfold db_next_fault in Efault.
    destruct (db_faults db); inversion Efault; reflexivity. }
  eexists _, _, _. simpl.
  split; [reflexivity|]. split; [simpl; rewrite Hrows; reflexivity|].
  repeat (split; [first [reflexivity|assumption]|]). split.
  - cbn [row_key_hash resp_key]. intros E. apply (f_equal String.length) in E.
    rewrite length_hash_api_key, Hlen in E. discriminate.
  - cbn [row_key_prefix resp_key]. intros E. apply (f_equal String.length) in E.
    pose proof (length_str_prefix 8 new_key) as Hp. rewrite E, Hlen in Hp. lia.
Qed.

(** C8 with the bytes 0, 1, ..., 31 as the draw. *)
Lemma create_api_key_secret_witness :
  exists resp row db',
    create_api_key (mkCreate "ci" false None (PyDict [])) (principal_of root_row)
                   (fun i => Z.of_nat i) "5c4d3e2f-1a0b-4c9d-8e7f-6a5b4c3d2e1f" 20 two_keys
    = (Return resp, db', snd (generate_api_key (fun i => Z.of_nat i)))
    /\ api_keys db' = [root_row; reader_row; row]
    /\ resp_key resp = "AAECAwQFBgcICQoLDA0ODxAREhMUFRYXGBkaGxwdHh8"
    /\ row_key_hash row = hash_api_key "AAECAwQFBgcICQoLDA0ODxAREhMUFRYXGBkaGxwdHh8"
    /\ row_key_prefix row = "AAECAwQF"
    /\ resp_key_prefix resp = "AAECAwQF".
Proof.
  destruct (create_api_key_secret
              (mkCreate "ci" false None (PyDict [])) (principal_of root_row)
              (fun i => Z.of_nat i) "5c4d3e2f-1a0b-4c9d-8e7f-6a5b4c3d2e1f" 20 two_keys
              eq_refl)
    as (resp & row & db' & Hrun & Hrows & Hkey & _ & _ & _ & Hhash & Hprefix & Hshown & _).
  assert (Hraw : fst (generate_api_key (fun i => Z.of_nat i))
                 = "AAECAwQFBgcICQoLDA0ODxAREhMUFRYXGBkaGxwdHh8")
    by (vm_compute; reflexivity).
  rewrite Hraw in Hkey. rewrite Hkey in Hhash, Hprefix, Hshown.
  exists resp, row, db'.
  split; [exact Hrun|]. split; [exact Hrows|]. split; [exact Hkey|].
  split; [exact Hhash|]. split; [exact Hprefix|exact Hshown].
Defined.

(** [update_api_key] has no check of its target against the acting key:
    with the store answering, setting [is_active] to false on the acting
    key's own id leaves every row of that id inactive. *)
Lemma update_api_key_self_target (admin_key : APIKeyValidation) (db : Database) :
  db_raises db = false ->
  forall row,
    row ∈ api_keys (snd (update_api_key (val_id admin_key)
                           (mkUpdate None (Some false) None None) admin_key db)) ->
    row_id row = val_id admin_key ->
    row_is_active row = false.
Proof.
  intros Hup row. unfold update_api_key, db_update. simpl.
  unfold db_raises in Hup. destruct (db_next_fault db) as [fault db1].
  simpl in Hup. subst fault.
  assert (Hrows : forall l, row ∈ map (fun r => if String.eqb (row_id r) (val_id admin_key)
                                     then apply_update (mkUpdate None (Some false) None None) r
                                     else r) l ->
                 row_id row = val_id admin_key -> row_is_active row = false).
  { intros l Hin Hid. apply list_elem_of_In, in_map_iff in Hin.
    destruct Hin as (r & Hr & _).
    destruct (String.eqb_spec (row_id r) (val_id admin_key)) as [_|Hne].
    - subst row. reflexivity.
    - subst row. contradiction. }
  destruct (map (apply_update _) _); simpl; apply Hrows.
Qed.

(** C4 on the table of two keys.  The admin key, presented as the
    credential of a PATCH on its own id that sets [is_active] to false, is
    deactivated: the request succeeds and the next request with the same
    credential is rejected.  The deactivate route refuses the same
    target. *)
Theorem update_api_key_deactivates_acting_key :
  exists info db',
    PATCH_api_key root_id (mkUpdate None (Some false) None None)
                  (Some "root-secret") 10 two_keys
    = (Return info, db')
    /\ info_id info = root_id
    /\ info_is_active info = false
    /\ fst (verify_api_key (Some "root-secret") 11 db')
       = Raise (HTTPException HTTP_401_UNAUTHORIZED "API key has been deactivated")
    /\ fst (POST_deactivate root_id (Some "root-secret") 10 two_keys)
       = Raise (HTTPException HTTP_400_BAD_REQUEST
                  "Cannot deactivate the API key you are currently using").
Proof. eexists _, _. vm_compute. repeat split. Qed.

(** * More properties of the code *)

(** ** Authentication and the key table *)

Lemma db_next_fault_rows (db : Database) :
  api_keys (snd (db_next_fault db)) = api_keys db.
Proof. unfold db_next_fault. destruct (db_faults db); reflexivity. Qed.

Lemma db_select_rows (p : APIKeyRow -> bool) (db : Database) :
  api_keys (snd (db_select p db)) = api_keys db.
Proof.
  unfold db_select. pose proof (db_next_fault_rows db) as H.
  destruct (db_next_fault db) as [[] db']; exact H.
Qed.

Lemma db_raises_healthy (db : Database) : db_faults db = [] -> db_raises db = false.
Proof. unfold db_raises. intros H. rewrite (db_next_fault_healthy _ H). reflexivity. Qed.

Lemma same_but_last_used_refl (rows : list APIKeyRow) :
  Forall2 same_but_last_used rows rows.
Proof. induction rows; constructor; [reflexivity|assumption]. Qed.

Lemma stamp_same_but_last_used (p : APIKeyRow -> bool) (now : Z) (rows : list APIKeyRow) :
  Forall2 same_but_last_used rows
          (map (fun r => if p r then set_last_used_at now r else r) rows).
Proof.
  induction rows as [|r rows IH]; simpl; constructor; [|exact IH].
  destruct (p r); reflexivity.
Qed.

(** What [verify_api_key] leaves of the table: the rows as they were, or
    with [last_used_at] stamped on the rows of the accepted key. *)
Lemma verify_api_key_rows (api_key : option string) (now : Z) (db : Database) :
  match fst (verify_api_key api_key now db) with
  | Raise _ => api_keys (snd (verify_api_key api_key now db)) = api_keys db
  | Return p =>
      api_keys (snd (verify_api_key api_key now db)) = api_keys db
      \/ api_keys (snd (verify_api_key api_key now db))
         = map (fun r => if String.eqb (row_id r) (val_id p)
                         then set_last_used_at now r else r) (api_keys db)
  end.
Proof.
  unfold verify_api_key. destruct api_key as [[|c key]|]; try reflexivity.
  pose proof (db_select_rows
                (fun r => String.eqb (row_key_hash r) (hash_api_key (String c key))) db) as Hsel.
  destruct (db_select _ db) as [[[|key_data rows]|] db1]; simpl in Hsel; try exact Hsel.
  destruct (row_is_active key_data); simpl; [|exact Hsel].
  destruct (match row_expires_at key_data with Some e => now >? e | None => false end);
    simpl; [exact Hsel|].
  unfold db_update. pose proof (db_next_fault_rows db1) as Hnf.
  destruct (db_next_fault db1) as [[] db2]; simpl in *.
  - left. congruence.
  - right. rewrite Hnf, Hsel. reflexivity.
Qed.

(** X1.  A request that fails authentication, whatever the reason,
    leaves every row of the key table as it was. *)
Theorem rejected_credential_writes_nothing
    (api_key : option string) (now : Z) (db : Database) (e : exn) :
  fst (verify_api_key api_key now db) = Raise e ->
  api_keys (snd (verify_api_key api_key now db)) = api_keys db.
Proof.
  intros H. pose proof (verify_api_key_rows api_key now db) as Hrows.
  rewrite H in Hrows. exact Hrows.
Qed.

Lemma rejected_credential_writes_nothing_witness :
  api_keys (snd (verify_api_key (Some "reader-secret") 1001 two_keys)) = api_keys two_keys.
Proof.
  apply (rejected_credential_writes_nothing (Some "reader-secret") 1001 two_keys
           (HTTPException HTTP_401_UNAUTHORIZED "API key has expired")).
  vm_compute. reflexivity.
Defined.

(** X2.  When the admin gate rejects a request, the handler of the route
    does not run, whichever handler it is: the request ends with the
    gate's exception, and the table differs from what it was in
    [last_used_at] at most. *)
Theorem admin_gate_rejection_skips_handler
    {A : Type} (handler : APIKeyValidation -> Database -> outcome A * Database)
    (api_key : option string) (now : Z) (db : Database) (e : exn) :
  fst (Security_require_admin_key api_key now db) = Raise e ->
  admin_route handler api_key now db
  = (Raise e, snd (Security_require_admin_key api_key now db))
  /\ Forall2 same_but_last_used (api_keys db)
             (api_keys (snd (Security_require_admin_key api_key now db))).
Proof.
  intros H. unfold admin_route. split.
  - destruct (Security_require_admin_key api_key now db) as [[p|e'] db']; simpl in *;
      congruence.
  - unfold Security_require_admin_key.
    pose proof (verify_api_key_rows api_key now db) as Hrows.
    destruct (verify_api_key api_key now db) as [[p|e'] db']; simpl in *.
    + destruct Hrows as [-> | ->];
        [apply same_but_last_used_refl|apply stamp_same_but_last_used].
    + rewrite Hrows. apply same_but_last_used_refl.
Qed.

(** X2 with the plain key of the fixture on the delete route, aimed at
    the admin key: 403, and both rows are still there. *)
Lemma admin_gate_rejection_skips_handler_witness :
  fst (DELETE_api_key root_id (Some "reader-secret") 10 two_keys)
  = Raise (HTTPException HTTP_403_FORBIDDEN "Admin API key required for this operation")
  /\ Forall2 same_but_last_used (api_keys two_keys)
             (api_keys (snd (Security_require_admin_key (Some "reader-secret") 10 two_keys))).
Proof.
  destruct (admin_gate_rejection_skips_handler (delete_api_key root_id)
              (Some "reader-secret") 10 two_keys
              (HTTPException HTTP_403_FORBIDDEN "Admin API key required for this operation"))
    as [Hrun Hrows].
  - vm_compute. reflexivity.
  - split; [|exact Hrows]. unfold DELETE_api_key. rewrite Hrun. reflexivity.
Defined.

(** X3.  The stamp of [last_used_at] is best effort: when the lookup is
    answered and the update that follows raises, the verdict is the one a
    healthy store gives and no row changes. *)
Theorem last_used_at_failure_is_swallowed
    (api_key : option string) (now : Z) (db : Database) (later : list bool) :
  db_faults db = false :: true :: later ->
  fst (verify_api_key api_key now db)
  = fst (verify_api_key api_key now (mkDb (api_keys db) []))
  /\ api_keys (snd (verify_api_key api_key now db)) = api_keys db.
Proof.
  intros Hf. unfold verify_api_key. destruct api_key as [[|c key]|]; try (split; reflexivity).
  unfold db_select, db_next_fault. rewrite Hf. simpl.
  destruct (List.filter _ (api_keys db)) as [|key_data rows]; [split; reflexivity|].
  destruct (row_is_active key_data); simpl; [|split; reflexivity].
  destruct (match row_expires_at key_data with Some e => now >? e | None => false end);
    split; reflexivity.
Qed.

Lemma last_used_at_failure_is_swallowed_witness :
  fst (verify_api_key (Some "root-secret") 10 (mkDb [root_row; reader_row] [false; true]))
  = Return (principal_of root_row)
  /\ api_keys (snd (verify_api_key (Some "root-secret") 10
                      (mkDb [root_row; reader_row] [false; true])))
     = [root_row; reader_row].
Proof.
  destruct (last_used_at_failure_is_swallowed (Some "root-secret") 10
              (mkDb [root_row; reader_row] [false; true]) [] eq_refl) as [Hv Hrows].
  split; [|exact Hrows]. rewrite Hv. vm_compute. reflexivity.
Defined.

Lemma find_app_miss {A : Type} (p : A -> bool) (l : list A) (x : A) :
  List.find p l = None -> p x = true -> List.find p (l ++ [x]) = Some x.
Proof.
  induction l as [|y l IH]; simpl; intros Hl Hx.
  - rewrite Hx. reflexivity.
  - destruct (p y); [discriminate|]. apply IH; assumption.
Qed.

(** X4.  A key that was created can be used: with the store healthy and
    no earlier row carrying the same digest, the secret of the creation
    response authenticates, at any time up to the expiry asked for, as the
    principal of the new row, with the id the table gave it and the
    privilege the request asked for. *)
Theorem created_key_authenticates
    (key_data : APIKeyCreate) (admin_key : APIKeyValidation) (src : entropy)
    (new_id : string) (now later : Z) (db : Database) :
  db_faults db = [] ->
  (forall row, row ∈ api_keys db ->
               row_key_hash row <> hash_api_key (fst (generate_api_key src))) ->
  (forall expiry, new_expires_at key_data = Some expiry -> later <= expiry) ->
  exists resp db',
    fst (create_api_key key_data admin_key src new_id now db) = (Return resp, db')
    /\ fst (verify_api_key (Some (resp_key resp)) later db')
       = Return (mkValidation new_id (new_is_admin key_data) true
                              (new_expires_at key_data) (new_metadata key_data)).
Proof.
  intros Hup Hfresh Hexp.
  pose proof (generate_api_key_spec src) as Hgen. cbv zeta in Hgen.
  destruct Hgen as (Hlen & _ & _).
  unfold create_api_key, db_insert.
  destruct (generate_api_key src) as [new_key src'] eqn:Egen. simpl fst in *.
  rewrite (db_next_fault_healthy _ Hup).
  destruct new_key as [|c new_key]; [discriminate Hlen|].
  set (row := mkRow new_id (new_name key_data)
             (hash_api_key (String c new_key)) (str_prefix 8 (String c new_key))
             (new_is_admin key_data) true (Some (val_id admin_key)) now None
             (new_expires_at key_data) (new_metadata key_data)).
  eexists _, _. split; [reflexivity|].
  change (fst (verify_api_key (Some (String c new_key)) later
                 (mkDb (api_keys db ++ [row]) (db_faults db))) = Return (principal_of row)).
  rewrite verify_api_key_healthy by exact Hup.
  unfold matched_record. cbn [api_keys].
  rewrite (find_app_miss _ _ row).
  - unfold verdict. subst row. cbn [row_is_active row_expires_at negb].
    destruct (new_expires_at key_data) as [expiry|] eqn:E; [|reflexivity].
    specialize (Hexp expiry eq_refl).
    destruct (Z.gtb_spec later expiry); [lia|reflexivity].
  - apply (proj2 (matched_record_None db (String c new_key))). exact Hfresh.
  - subst row. cbn [row_key_hash]. apply String.eqb_refl.
Qed.

Lemma created_key_authenticates_witness :
  exists resp db',
    fst (create_api_key (mkCreate "ci" false (Some 500) (PyDict [])) (principal_of root_row)
                        (fun i => Z.of_nat i) "5c4d3e2f-1a0b-4c9d-8e7f-6a5b4c3d2e1f"
                        20 two_keys)
    = (Return resp, db')
    /\ fst (verify_api_key (Some (resp_key resp)) 500 db')
       = Return (mkValidation "5c4d3e2f-1a0b-4c9d-8e7f-6a5b4c3d2e1f" false true
                              (Some 500) (PyDict [])).
Proof.
  apply (created_key_authenticates (mkCreate "ci" false (Some 500) (PyDict []))
           (principal_of root_row) (fun i => Z.of_nat i)
           "5c4d3e2f-1a0b-4c9d-8e7f-6a5b4c3d2e1f" 20 500 two_keys).
  - reflexivity.
  - intros row Hin. apply list_elem_of_In in Hin. simpl in Hin.
    destruct Hin as [<-|[<-|[]]]; vm_compute; discriminate.
  - intros expiry E. injection E as <-. lia.
Defined.

(** X5.  [update_api_key] writes the name, the active flag, the expiry
    and the metadata, and nothing else: whatever the request, every row
    keeps its id, digest, prefix, admin flag, creator and timestamps, and
    a row of another id is not touched at all. *)
Theorem update_api_key_keeps_identity
    (key_id : string) (updates : APIKeyUpdate) (admin_key : APIKeyValidation)
    (db : Database) :
  Forall2 (fun r r' => same_identity r r' /\ (row_id r <> key_id -> r' = r))
          (api_keys db)
          (api_keys (snd (update_api_key key_id updates admin_key db))).
Proof.
  assert (Hsame : forall rows : list APIKeyRow,
            Forall2 (fun r r' => same_identity r r' /\ (row_id r <> key_id -> r' = r))
                    rows rows).
  { induction rows; constructor; [|assumption].
    split; [repeat split|reflexivity]. }
  unfold update_api_key. destruct (no_updates updates); [apply Hsame|].
  unfold db_update. pose proof (db_next_fault_rows db) as Hnf.
  destruct (db_next_fault db) as [[] db1]; simpl in Hnf.
  - simpl. rewrite Hnf. apply Hsame.
  - assert (Hmap : Forall2 (fun r r' => same_identity r r' /\ (row_id r <> key_id -> r' = r))
                     (api_keys db)
                     (map (fun r => if String.eqb (row_id r) key_id
                                    then apply_update updates r else r) (api_keys db))).
    { clear. induction (api_keys db) as [|r rows IH]; simpl; constructor; [|exact IH].
      destruct (String.eqb_spec (row_id r) key_id) as [E|E].
      - split; [repeat split|contradiction].
      - split; [repeat split|reflexivity]. }
    rewrite <- Hnf at 1. rewrite <- Hnf in Hmap.
    destruct (map (apply_update updates) _); simpl; rewrite Hnf in *; exact Hmap.
Qed.

Lemma filter_unknown_id (key_id : string) (rows : list APIKeyRow) :
  (forall row, row ∈ rows -> row_id row <> key_id) ->
  List.filter (fun r => String.eqb (row_id r) key_id) rows = []
  /\ List.filter (fun r => negb (String.eqb (row_id r) key_id)) rows = rows
  /\ forall f, map (fun r => if String.eqb (row_id r) key_id then f r else r) rows = rows.
Proof.
  induction rows as [|r rows IH]; intros H; [repeat split|].
  assert (Hr : String.eqb (row_id r) key_id = false).
  { apply String.eqb_neq, H. left. }
  destruct IH as (IH1 & IH2 & IH3); [intros row Hin; apply H; right; exact Hin|].
  simpl. rewrite Hr. simpl. rewrite IH1, IH2. repeat split.
  intros f. rewrite IH3. reflexivity.
Qed.

(** X6.  A request that has nothing to do leaves the table alone: an
    update with no field set is refused with 400, and, with the store
    answering, an update, deactivation, activation or deletion aimed at an
    id the table does not hold ends in 404 with every row as it was. *)
Theorem requests_without_target_change_nothing
    (key_id : string) (updates : APIKeyUpdate) (admin_key : APIKeyValidation)
    (db : Database) :
  db_raises db = false ->
  unknown_id key_id db ->
  val_id admin_key <> key_id ->
  let not_found := Raise (HTTPException HTTP_404_NOT_FOUND "API key not found") in
  (no_updates updates = true ->
   update_api_key key_id updates admin_key db
   = (Raise (HTTPException HTTP_400_BAD_REQUEST "No updates provided"), db))
  /\ (no_updates updates = false ->
      fst (update_api_key key_id updates admin_key db) = not_found
      /\ api_keys (snd (update_api_key key_id updates admin_key db)) = api_keys db)
  /\ (fst (deactivate_api_key key_id admin_key db) = not_found
      /\ api_keys (snd (deactivate_api_key key_id admin_key db)) = api_keys db)
  /\ (fst (activate_api_key key_id admin_key db) = not_found
      /\ api_keys (snd (activate_api_key key_id admin_key db)) = api_keys db)
  /\ (fst (delete_api_key key_id admin_key db) = Raise (HTTPException HTTP_404_NOT_FOUND "API key not found")
      /\ api_keys (snd (delete_api_key key_id admin_key db)) = api_keys db).
Proof.
  intros Hup Hunknown Hother not_found. subst not_found.
  unfold db_raises in Hup. pose proof (db_next_fault_rows db) as Hnf.
  assert (Hne : String.eqb key_id (val_id admin_key) = false).
  { apply String.eqb_neq. congruence. }
  unfold update_api_key, deactivate_api_key, activate_api_key, delete_api_key,
    db_update, db_delete.
  rewrite Hne. destruct (db_next_fault db) as [fault db1]. simpl in Hup, Hnf. subst fault.
  destruct (filter_unknown_id key_id (api_keys db1)) as (H1 & H2 & H3);
    [rewrite Hnf; exact Hunknown|].
  rewrite H1, H2, !H3. simpl. rewrite Hnf.
  split; [intros ->; reflexivity|].
  split; [intros ->; split; reflexivity|].
  repeat split.
Qed.

Lemma requests_without_target_change_nothing_witness :
  fst (delete_api_key "no-such-id" (principal_of root_row) two_keys)
  = Raise (HTTPException HTTP_404_NOT_FOUND "API key not found")
  /\ api_keys (snd (delete_api_key "no-such-id" (principal_of root_row) two_keys))
     = api_keys two_keys.
Proof.
  refine (proj2 (proj2 (proj2 (proj2
            (requests_without_target_change_nothing "no-such-id"
               (mkUpdate None None None None) (principal_of root_row) two_keys _ _ _))))).
  - reflexivity.
  - intros row Hin. apply list_elem_of_In in Hin. simpl in Hin.
    destruct Hin as [<-|[<-|[]]]; vm_compute; discriminate.
  - vm_compute. discriminate.
Defined.

Lemma find_map_if (key_id : string) (f : APIKeyRow -> APIKeyRow)
    (p : APIKeyRow -> bool) (rows : list APIKeyRow) :
  (forall r, row_id (f r) = row_id r) ->
  (forall r, p (f r) = p r) ->
  List.find p (map (fun r => if String.eqb (row_id r) key_id then f r else r) rows)
  = option_map (fun r => if String.eqb (row_id r) key_id then f r else r)
               (List.find p rows).
Proof.
  intros Hid Hp. induction rows as [|r rows IH]; [reflexivity|]. simpl.
  destruct (String.eqb (row_id r) key_id) eqn:E; rewrite ?Hp; destruct (p r);
    simpl; rewrite ?E; auto.
Qed.

(** X7.  Deactivation bites: once [deactivate_api_key] has succeeded on
    an id, a credential that is matched to a row of that id is rejected
    with 401, whatever the time and the state of the store's schedule,
    as long as the rows stay as the deactivation left them. *)
Theorem deactivated_key_is_rejected
    (key_id : string) (admin_key : APIKeyValidation) (db db1 db2 : Database)
    (info : APIKeyInfo) (key : string) (row : APIKeyRow) (now : Z) :
  deactivate_api_key key_id admin_key db = (Return info, db1) ->
  api_keys db2 = api_keys db1 ->
  db_faults db2 = [] ->
  key <> "" ->
  matched_record db key = Some row ->
  row_id row = key_id ->
  info_is_active info = false
  /\ fst (verify_api_key (Some key) now db2)
     = Raise (HTTPException HTTP_401_UNAUTHORIZED "API key has been deactivated").
Proof.
  intros Hrun Hrows Hup Hkey Hm Hid.
  unfold deactivate_api_key, db_update in Hrun.
  destruct (String.eqb key_id (val_id admin_key)); [discriminate|].
  pose proof (db_next_fault_rows db) as Hnf.
  destruct (db_next_fault db) as [[] db'] eqn:Ef; [discriminate|]. simpl in Hnf.
  destruct (List.filter _ (api_keys db')) as [|r0 rs] eqn:Efilter; [discriminate|].
  simpl in Hrun. injection Hrun as <- <-. split; [reflexivity|].
  destruct key as [|c key]; [congruence|].
  rewrite verify_api_key_healthy by exact Hup.
  unfold matched_record in *. rewrite Hrows. cbn [api_keys].
  rewrite (find_map_if key_id (set_is_active false)) by reflexivity.
  rewrite Hnf, Hm. simpl. rewrite Hid, String.eqb_refl. reflexivity.
Qed.

Lemma deactivated_key_is_rejected_witness :
  fst (verify_api_key (Some "reader-secret") 10
         (snd (deactivate_api_key reader_id (principal_of root_row) two_keys)))
  = Raise (HTTPException HTTP_401_UNAUTHORIZED "API key has been deactivated").
Proof.
  refine (proj2 (deactivated_key_is_rejected reader_id (principal_of root_row) two_keys
                   (snd (deactivate_api_key reader_id (principal_of root_row) two_keys))
                   (snd (deactivate_api_key reader_id (principal_of root_row) two_keys))
                   (APIKeyInfo_of_row (set_is_active false reader_row))
                   "reader-secret" reader_row 10 _ _ _ _ _ _)).
  - vm_compute. reflexivity.
  - reflexivity.
  - reflexivity.
  - discriminate.
  - vm_compute. reflexivity.
  - reflexivity.
Defined.

Lemma map_set_is_active_twice (key_id : string) (rows : list APIKeyRow) :
  (forall row, row ∈ rows -> row_id row = key_id -> row_is_active row = true) ->
  map (fun r => if String.eqb (row_id r) key_id then set_is_active true r else r)
      (map (fun r => if String.eqb (row_id r) key_id then set_is_active false r else r) rows)
  = rows.
Proof.
  induction rows as [|r rows IH]; intros H; [reflexivity|]. simpl.
  rewrite IH by (intros row Hin; apply H; right; exact Hin). f_equal.
  destruct (String.eqb_spec (row_id r) key_id) as [E|E].
  - simpl. rewrite E, String.eqb_refl.
    assert (Ha : row_is_active r = true) by (apply H; [left|exact E]).
    destruct r; simpl in *. subst. reflexivity.
  - destruct (String.eqb_spec (row_id r) key_id); [contradiction|reflexivity].
Qed.

(** X8.  Activation undoes deactivation: with the store healthy, an
    active key that is deactivated and then activated again leaves the
    table exactly as it was before the two requests. *)
Theorem activate_undoes_deactivate
    (key_id : string) (admin_key : APIKeyValidation) (db : Database) :
  db_faults db = [] ->
  val_id admin_key <> key_id ->
  (forall row, row ∈ api_keys db -> row_id row = key_id -> row_is_active row = true) ->
  snd (activate_api_key key_id admin_key
         (snd (deactivate_api_key key_id admin_key db))) = db.
Proof.
  intros Hup Hother Hactive.
  assert (Hne : String.eqb key_id (val_id admin_key) = false).
  { apply String.eqb_neq. congruence. }
  unfold deactivate_api_key, activate_api_key, db_update. rewrite Hne.
  rewrite (db_next_fault_healthy _ Hup).
  set (db1 := mkDb (map (fun r => if String.eqb (row_id r) key_id
                                  then set_is_active false r else r) (api_keys db))
                   (db_faults db)).
  assert (Hdb1 : db_next_fault db1 = (false, db1)).
  { apply db_next_fault_healthy. exact Hup. }
  assert (Hback : mkDb (map (fun r => if String.eqb (row_id r) key_id
                                      then set_is_active true r else r) (api_keys db1))
                       (db_faults db1) = db).
  { subst db1. simpl. rewrite map_set_is_active_twice by exact Hactive.
    destruct db. reflexivity. }
  destruct (map (set_is_active false) _); simpl; fold db1; rewrite Hdb1;
    destruct (map (set_is_active true) _); simpl; exact Hback.
Qed.

Lemma activate_undoes_deactivate_witness :
  snd (activate_api_key reader_id (principal_of root_row)
         (snd (deactivate_api_key reader_id (principal_of root_row) two_keys)))
  = two_keys.
Proof.
  apply (activate_undoes_deactivate reader_id (principal_of root_row) two_keys).
  - reflexivity.
  - vm_compute. discriminate.
  - intros row Hin. apply list_elem_of_In in Hin. simpl in Hin.
    destruct Hin as [<-|[<-|[]]]; reflexivity.
Defined.

Lemma filter_not_elem (key_id : string) (rows : list APIKeyRow) (row : APIKeyRow) :
  row ∈ List.filter (fun r => negb (String.eqb (row_id r) key_id)) rows
  <-> row ∈ rows /\ row_id row <> key_id.
Proof.
  rewrite !list_elem_of_In, filter_In. rewrite negb_true_iff, String.eqb_neq.
  reflexivity.
Qed.

(** X9.  Deletion removes the rows of the target and nothing else: with
    the store answering and the target other than the acting key, the
    table afterwards holds the rows of every other id and no row of the
    target's id, and a credential whose digest only the deleted rows
    carried is rejected as invalid from then on. *)
Theorem delete_api_key_removes_target
    (key_id : string) (admin_key : APIKeyValidation) (db : Database) :
  db_raises db = false ->
  val_id admin_key <> key_id ->
  let db' := snd (delete_api_key key_id admin_key db) in
  (forall row, row ∈ api_keys db' <-> row ∈ api_keys db /\ row_id row <> key_id)
  /\ (forall key now db2,
        api_keys db2 = api_keys db' -> db_faults db2 = [] -> key <> "" ->
        (forall row, row ∈ api_keys db -> row_key_hash row = hash_api_key key ->
                     row_id row = key_id) ->
        fst (verify_api_key (Some key) now db2)
        = Raise (HTTPException HTTP_401_UNAUTHORIZED "Invalid API key")).
Proof.
  intros Hup Hother db'.
  assert (Hne : String.eqb key_id (val_id admin_key) = false).
  { apply String.eqb_neq. congruence. }
  assert (Hrows : api_keys db'
                  = List.filter (fun r => negb (String.eqb (row_id r) key_id)) (api_keys db)).
  { subst db'. unfold delete_api_key, db_delete. rewrite Hne.
    unfold db_raises in Hup. pose proof (db_next_fault_rows db) as Hnf.
    destruct (db_next_fault db) as [fault db1]. simpl in Hup, Hnf. subst fault.
    rewrite Hnf. destruct (List.filter _ (api_keys db)); reflexivity. }
  split.
  - intros row. rewrite Hrows. apply filter_not_elem.
  - intros key now db2 Hdb2 Hup2 Hkey Honly.
    destruct key as [|c key]; [congruence|].
    rewrite verify_api_key_healthy by exact Hup2.
    assert (Hm : matched_record db2 (String c key) = None).
    { apply matched_record_None. intros row Hin Hhash.
      rewrite Hdb2, Hrows in Hin. apply filter_not_elem in Hin as [Hin Hid].
      apply Hid, Honly; assumption. }
    rewrite Hm. reflexivity.
Qed.

Lemma delete_api_key_removes_target_witness :
  fst (verify_api_key (Some "reader-secret") 10
         (snd (delete_api_key reader_id (principal_of root_row) two_keys)))
  = Raise (HTTPException HTTP_401_UNAUTHORIZED "Invalid API key").
Proof.
  refine (proj2 (delete_api_key_removes_target reader_id (principal_of root_row) two_keys
                   _ _) "reader-secret" 10 _ _ _ _ _).
  - reflexivity.
  - vm_compute. discriminate.
  - reflexivity.
  - reflexivity.
  - discriminate.
  - intros row Hin. apply list_elem_of_In in Hin. simpl in Hin.
    destruct Hin as [<-|[<-|[]]]; vm_compute; [discriminate|reflexivity].
Defined.

#[local] Instance created_desc_total : Total created_desc.
Proof. intros a b. unfold created_desc. lia. Qed.

(** X10.  [list_api_keys]: with the store answering, the listing holds
    one entry for each row that is active (for each row, when inactive
    keys are asked for too), the latest created first; a listing without
    the inactive keys has active keys only; and the table is not
    changed. *)
Theorem list_api_keys_lists_the_active_keys
    (admin_key : APIKeyValidation) (include_inactive : bool) (db : Database) :
  db_raises db = false ->
  exists infos,
    list_api_keys admin_key include_inactive db = (Return infos, snd (db_next_fault db))
    /\ infos ≡ₚ map APIKeyInfo_of_row
                   (if include_inactive then api_keys db
                    else List.filter row_is_active (api_keys db))
    /\ Sorted (fun a b => info_created_at b <= info_created_at a) infos
    /\ (include_inactive = false -> Forall (fun i => info_is_active i = true) infos).
Proof.
  intros Hup. unfold list_api_keys, db_select_keys.
  unfold db_raises in Hup. pose proof (db_next_fault_rows db) as Hnf.
  destruct (db_next_fault db) as [fault db1]. simpl in Hup, Hnf. subst fault.
  rewrite Hnf. simpl snd.
  set (chosen := if include_inactive then api_keys db
                 else List.filter row_is_active (api_keys db)).
  exists (map APIKeyInfo_of_row (merge_sort created_desc chosen)).
  split; [reflexivity|]. split; [|split].
  - apply Permutation_map, merge_sort_Permutation.
  - apply (Sorted_fmap APIKeyInfo_of_row created_desc).
    + intros x y H. exact H.
    + apply (Sorted_merge_sort created_desc).
  - intros ->. subst chosen. apply Forall_forall. intros i Hi.
    apply list_elem_of_In, in_map_iff in Hi. destruct Hi as (r & <- & Hr).
    apply list_elem_of_In in Hr. rewrite merge_sort_Permutation in Hr.
    apply list_elem_of_In, filter_In in Hr. apply Hr.
Qed.

Lemma list_api_keys_lists_the_active_keys_witness :
  exists infos,
    list_api_keys (principal_of root_row) false two_keys = (Return infos, two_keys)
    /\ infos ≡ₚ [APIKeyInfo_of_row root_row; APIKeyInfo_of_row reader_row].
Proof.
  destruct (list_api_keys_lists_the_active_keys (principal_of root_row) false two_keys eq_refl)
    as (infos & Hrun & Hperm & _).
  exists infos. split; [exact Hrun|exact Hperm].
Defined.

Lemma filter_unique_id (rows : list APIKeyRow) (row : APIKeyRow) :
  NoDup (map row_id rows) -> row ∈ rows ->
  List.filter (fun r => String.eqb (row_id r) (row_id row)) rows = [row].
Proof.
  induction rows as [|r rows IH]; intros Hnd Hin; [inversion Hin|].
  simpl in Hnd. apply NoDup_cons in Hnd as [Hr Hnd].
  apply elem_of_cons in Hin as [->|Hin]; simpl.
  - rewrite String.eqb_refl. f_equal.
    destruct (filter_unknown_id (row_id r) rows) as (H1 & _); [|exact H1].
    intros row' Hin' E. apply Hr. rewrite <- E.
    apply list_elem_of_In, in_map, list_elem_of_In, Hin'.
  - destruct (String.eqb_spec (row_id r) (row_id row)) as [E|E]; [|apply IH; assumption].
    destruct Hr. rewrite E. apply list_elem_of_In, in_map, list_elem_of_In, Hin.
Qed.

Lemma filter_map_stamp (key_id : string) (f : APIKeyRow -> APIKeyRow)
    (rows : list APIKeyRow) :
  (forall r, row_id (f r) = row_id r) ->
  List.filter (fun r => String.eqb (row_id r) key_id)
              (map (fun r => if String.eqb (row_id r) key_id then f r else r) rows)
  = map f (List.filter (fun r => String.eqb (row_id r) key_id) rows).
Proof.
  intros Hid. induction rows as [|r rows IH]; [reflexivity|]. simpl.
  destruct (String.eqb (row_id r) key_id) eqn:E.
  - rewrite Hid, E. simpl. rewrite IH. reflexivity.
  - rewrite E. exact IH.
Qed.

(** What an accepted credential leaves behind on a healthy store. *)
Lemma verify_api_key_accepts (api_key : option string) (now : Z) (db : Database)
    (p : APIKeyValidation) :
  db_faults db = [] ->
  fst (verify_api_key api_key now db) = Return p ->
  exists key row,
    api_key = Some key /\ matched_record db key = Some row /\ p = principal_of row
    /\ row ∈ api_keys db
    /\ snd (verify_api_key api_key now db)
       = mkDb (map (fun r => if String.eqb (row_id r) (row_id row)
                             then set_last_used_at now r else r) (api_keys db)) [].
Proof.
  intros Hup Hp. destruct api_key as [[|c key]|]; try discriminate.
  exists (String c key).
  assert (Hfind : forall row, matched_record db (String c key) = Some row -> row ∈ api_keys db).
  { intros row H. unfold matched_record in H. apply find_some in H as [H _].
    apply list_elem_of_In, H. }
  revert Hp Hfind. unfold matched_record.
  rewrite <- head_filter_find. unfold verify_api_key, db_select.
  rewrite (db_next_fault_healthy _ Hup).
  destruct (List.filter _ (api_keys db)) as [|row rows]; [discriminate|].
  simpl. destruct (row_is_active row) eqn:Ea; [|discriminate]. simpl.
  destruct (match row_expires_at row with Some e => now >? e | None => false end);
    [discriminate|].
  unfold db_update. rewrite (db_next_fault_healthy _ Hup). simpl.
  intros Hp Hfind. injection Hp as <-. exists row.
  split; [reflexivity|]. split; [reflexivity|].
  split; [unfold principal_of; rewrite Ea; reflexivity|].
  split; [apply Hfind; reflexivity|]. rewrite Hup. reflexivity.
Qed.

(** X11.  [GET /api-keys/verify/current] answers with the caller's own
    record: with the store healthy and ids unique, an accepted credential
    gets back the row it was matched to, carrying the [last_used_at] this
    very request has stamped. *)
Theorem verify_current_returns_own_record
    (api_key : option string) (now : Z) (db : Database) (p : APIKeyValidation) :
  db_faults db = [] ->
  NoDup (map row_id (api_keys db)) ->
  fst (verify_api_key api_key now db) = Return p ->
  exists key row,
    api_key = Some key /\ matched_record db key = Some row
    /\ fst (GET_verify_current api_key now db)
       = Return (APIKeyInfo_of_row (set_last_used_at now row))
    /\ info_id (APIKeyInfo_of_row (set_last_used_at now row)) = val_id p.
Proof.
  intros Hup Hnd Hp.
  destruct (verify_api_key_accepts api_key now db p Hup Hp)
    as (key & row & Hkey & Hm & Hprin & Hin & Hdb).
  exists key, row. split; [exact Hkey|]. split; [exact Hm|].
  split; [|subst p; reflexivity].
  unfold GET_verify_current.
  destruct (verify_api_key api_key now db) as [o db1]. simpl in Hp, Hdb. subst o db1.
  unfold verify_current_key, db_select. rewrite db_next_fault_healthy by reflexivity.
  subst p. cbn [api_keys val_id principal_of].
  rewrite (filter_map_stamp (row_id row) (set_last_used_at now)) by reflexivity.
  rewrite (filter_unique_id _ _ Hnd Hin). reflexivity.
Qed.

Lemma verify_current_returns_own_record_witness :
  fst (GET_verify_current (Some "reader-secret") 10 two_keys)
  = Return (APIKeyInfo_of_row (set_last_used_at 10 reader_row)).
Proof.
  destruct (verify_current_returns_own_record (Some "reader-secret") 10 two_keys
              (principal_of reader_row))
    as (key & row & Hkey & Hm & Hrun & _).
  - reflexivity.
  - apply (bool_decide_unpack _). vm_compute. exact I.
  - vm_compute. reflexivity.
  - injection Hkey as <-.
    assert (Hrow : matched_record two_keys "reader-secret" = Some reader_row)
      by (vm_compute; reflexivity).
    rewrite Hrow in Hm. injection Hm as <-. exact Hrun.
Defined.

(** ** The bootstrap script *)

Lemma filter_none (p : APIKeyRow -> bool) (rows : list APIKeyRow) :
  (forall row, row ∈ rows -> p row = false) -> List.filter p rows = [].
Proof.
  induction rows as [|r rows IH]; intros H; [reflexivity|]. simpl.
  rewrite (H r) by left. apply IH. intros row Hin. apply H. right. exact Hin.
Qed.

(** X12.  On a table without an admin key and a healthy store the
    script does not ask anything: whatever the operator would have typed,
    it ends showing a key, and that key passes the admin gate, at any time
    up to the expiry given, provided no row carried its digest already. *)
Theorem create_admin_key_bootstraps
    (name : string) (expires_at : option Z) (response : string) (src : entropy)
    (new_id : string) (now later : Z) (db : Database) :
  db_faults db = [] ->
  (forall row, row ∈ api_keys db -> row_is_admin row = false) ->
  (forall row, row ∈ api_keys db ->
               row_key_hash row <> hash_api_key (fst (generate_api_key src))) ->
  (forall expiry, expires_at = Some expiry -> later <= expiry) ->
  exists created_key db',
    fst (create_admin_key name expires_at response src new_id now db)
    = (KeyShown (fst (generate_api_key src)) created_key, db')
    /\ fst (Security_require_admin_key (Some (fst (generate_api_key src))) later db')
       = Return (principal_of created_key)
    /\ row_is_admin created_key = true.
Proof.
  intros Hup Hnoadmin Hfresh Hexp.
  pose proof (generate_api_key_spec src) as Hgen. cbv zeta in Hgen.
  destruct Hgen as (Hlen & _ & _).
  unfold create_admin_key, db_select, db_insert.
  destruct (generate_api_key src) as [admin_key src'] eqn:Egen. simpl fst in *.
  rewrite (db_next_fault_healthy _ Hup), (filter_none _ _ Hnoadmin).
  rewrite (db_next_fault_healthy _ Hup).
  destruct admin_key as [|c admin_key]; [discriminate Hlen|].
  set (row := mkRow new_id name (hash_api_key (String c admin_key))
                    (str_prefix 8 (String c admin_key)) true true None now None
                    expires_at (PyDict [("created_by_script", PyBool true)])).
  exists row, (mkDb (api_keys db ++ [row]) (db_faults db)).
  split; [reflexivity|]. split; [|reflexivity].
  assert (Hv : fst (verify_api_key (Some (String c admin_key)) later
                      (mkDb (api_keys db ++ [row]) (db_faults db)))
               = Return (principal_of row)).
  { rewrite verify_api_key_healthy by exact Hup.
    unfold matched_record. cbn [api_keys]. rewrite (find_app_miss _ _ row).
    - unfold verdict. subst row. cbn [row_is_active row_expires_at negb].
      destruct expires_at as [expiry|]; [|reflexivity].
      specialize (Hexp expiry eq_refl).
      destruct (Z.gtb_spec later expiry); [lia|reflexivity].
    - apply (proj2 (matched_record_None db (String c admin_key))). exact Hfresh.
    - subst row. cbn [row_key_hash]. apply String.eqb_refl. }
  unfold Security_require_admin_key.
  destruct (verify_api_key _ later _) as [o db1]. simpl in Hv. subst o. reflexivity.
Qed.

Lemma create_admin_key_bootstraps_witness :
  exists created_key db',
    fst (create_admin_key "Initial Admin Key" None "" (fun i => Z.of_nat i)
                          "5c4d3e2f-1a0b-4c9d-8e7f-6a5b4c3d2e1f" 0 (mkDb [] []))
    = (KeyShown "AAECAwQFBgcICQoLDA0ODxAREhMUFRYXGBkaGxwdHh8" created_key, db')
    /\ fst (Security_require_admin_key
              (Some "AAECAwQFBgcICQoLDA0ODxAREhMUFRYXGBkaGxwdHh8") 7 db')
       = Return (principal_of created_key).
Proof.
  destruct (create_admin_key_bootstraps "Initial Admin Key" None "" (fun i => Z.of_nat i)
              "5c4d3e2f-1a0b-4c9d-8e7f-6a5b4c3d2e1f" 0 7 (mkDb [] []))
    as (created_key & db' & Hrun & Hgate & _).
  - reflexivity.
  - intros row Hin. inversion Hin.
  - intros row Hin. inversion Hin.
  - discriminate.
  - assert (Hraw : fst (generate_api_key (fun i => Z.of_nat i))
                   = "AAECAwQFBgcICQoLDA0ODxAREhMUFRYXGBkaGxwdHh8")
      by (vm_compute; reflexivity).
    rewrite Hraw in Hrun, Hgate. exists created_key, db'. split; assumption.
Defined.

(** X13.  When an admin key exists, the script goes on only if the
    operator answers [y] or [Y]: on any other answer it stops without
    writing a row. *)
Theorem create_admin_key_declined
    (name : string) (expires_at : option Z) (response : string) (src : entropy)
    (new_id : string) (now : Z) (db : Database) (admin : APIKeyRow) :
  db_raises db = false ->
  admin ∈ api_keys db ->
  row_is_admin admin = true ->
  answered_yes response = false ->
  fst (fst (create_admin_key name expires_at response src new_id now db)) = Aborted
  /\ api_keys (snd (fst (create_admin_key name expires_at response src new_id now db)))
     = api_keys db.
Proof.
  intros Hup Hin Hadmin Hno. unfold create_admin_key, db_select.
  destruct (generate_api_key src) as [admin_key src'].
  unfold db_raises in Hup. pose proof (db_next_fault_rows db) as Hnf.
  destruct (db_next_fault db) as [fault db1]. simpl in Hup, Hnf. subst fault.
  assert (Hex : exists r rs, List.filter row_is_admin (api_keys db1) = r :: rs).
  { assert (H : admin ∈ List.filter row_is_admin (api_keys db1)).
    { apply list_elem_of_In, filter_In. split; [|exact Hadmin].
      rewrite Hnf. apply list_elem_of_In, Hin. }
    destruct (List.filter row_is_admin (api_keys db1)); [inversion H|eauto]. }
  destruct Hex as (r & rs & ->). rewrite Hno. simpl. split; [reflexivity|exact Hnf].
Qed.

Lemma create_admin_key_declined_witness :
  fst (fst (create_admin_key "Second" None "n" (fun i => Z.of_nat i) "id" 0 two_keys))
  = Aborted.
Proof.
  apply (create_admin_key_declined "Second" None "n" (fun i => Z.of_nat i) "id" 0
           two_keys root_row); try reflexivity.
  left.
Defined.

(** ** Pagination *)

(** X14.  The page count is the least number of pages that hold all the
    rows, and [has_next] says exactly whether rows lie beyond the range of
    the page asked for, [next_page] and [prev_page] being present exactly
    when [has_next] and [has_prev] are. *)
Theorem pagination_meta_counts_pages (page per_page total_count : Z) :
  1 <= per_page ->
  0 <= total_count ->
  let meta := pagination_meta page per_page total_count in
  (total_count <= total_pages meta * per_page < total_count + per_page)
  /\ (has_next meta = true <-> snd (page_range page per_page) + 1 < total_count)
  /\ (has_prev meta = true <-> 1 < page)
  /\ next_page meta = (if has_next meta then Some (page + 1) else None)
  /\ prev_page meta = (if has_prev meta then Some (page - 1) else None).
Proof.
  intros Hpp Htotal meta. subst meta. unfold pagination_meta, page_range, offset_of.
  cbn [total_pages has_next has_prev next_page prev_page snd].
  assert (Hdiv : total_count <= (total_count + per_page - 1) / per_page * per_page
                 < total_count + per_page).
  { pose proof (Z.div_mod (total_count + per_page - 1) per_page ltac:(lia)) as Hdm.
    pose proof (Z.mod_pos_bound (total_count + per_page - 1) per_page ltac:(lia)) as Hb.
    lia. }
  split; [exact Hdiv|]. split; [|split; [|split; reflexivity]].
  - rewrite Z.ltb_lt. split; intros H; nia.
  - rewrite Z.gtb_ltb, Z.ltb_lt. reflexivity.
Qed.

Lemma pagination_meta_counts_pages_witness :
  total_pages (pagination_meta 3 20 45) = 3
  /\ has_next (pagination_meta 3 20 45) = false
  /\ has_next (pagination_meta 2 20 45) = true.
Proof.
  destruct (pagination_meta_counts_pages 3 20 45 ltac:(lia) ltac:(lia))
    as (Hpages & Hnext3 & _).
  destruct (pagination_meta_counts_pages 2 20 45 ltac:(lia) ltac:(lia))
    as (_ & Hnext2 & _).
  split; [|split].
  - cbv zeta in Hpages. lia.
  - apply Bool.not_true_is_false. intros E.
    apply Hnext3 in E. vm_compute in E. discriminate.
  - apply Hnext2. vm_compute. reflexivity.
Defined.

(** X15.  The ranges the list endpoints ask the store for tile the
    result: page 1 starts at row 0, every page spans [per_page] rows, the
    next page starts right after the last row of this one, and so two
    different pages never share a row. *)
Theorem page_ranges_tile (page other per_page : Z) :
  1 <= per_page ->
  fst (page_range 1 per_page) = 0
  /\ snd (page_range page per_page) - fst (page_range page per_page) + 1 = per_page
  /\ fst (page_range (page + 1) per_page) = snd (page_range page per_page) + 1
  /\ (page < other ->
      snd (page_range page per_page) < fst (page_range other per_page)).
Proof.
  intros Hpp. unfold page_range, offset_of. simpl. repeat split; try lia.
  intros H. nia.
Qed.

Lemma page_ranges_tile_witness :
  page_range 1 20 = (0, 19) /\ page_range 2 20 = (20, 39)
  /\ snd (page_range 2 20) < fst (page_range 5 20).
Proof.
  split; [reflexivity|]. split; [reflexivity|].
  apply (page_ranges_tile 2 5 20); lia.
Defined.

(** ** The key of a comparison *)

#[local] Instance str_le_trans : Transitive str_le.
Proof. intros x y z. unfold str_le. apply leb_trans. Qed.

#[local] Instance str_le_total : Total str_le.
Proof. intros x y. unfold str_le. apply String.leb_total. Qed.

#[local] Instance str_le_antisym : AntiSymm eq str_le.
Proof. intros x y. unfold str_le. apply String.leb_antisym. Qed.

(** X16.  The cache key of [compare_companies] does not depend on the
    order in which the company ids are given: two lists that hold the
    same ids the same number of times get the same key, and so the same
    cache entry. *)
Theorem compare_key_builder_order_independent (ids1 ids2 : list string) :
  ids1 ≡ₚ ids2 ->
  compare_key_builder ids1 = compare_key_builder ids2.
Proof.
  intros Hperm. unfold compare_key_builder, sorted_strings. do 2 f_equal.
  apply (Sorted_unique str_le).
  - apply (Sorted_merge_sort str_le).
  - apply (Sorted_merge_sort str_le).
  - rewrite !merge_sort_Permutation. exact Hperm.
Qed.

Lemma compare_key_builder_order_independent_witness :
  compare_key_builder ["c2"; "c10"; "c1"] = compare_key_builder ["c1"; "c2"; "c10"]
  /\ compare_key_builder ["c2"; "c10"; "c1"] = "analytics:compare:c1_c10_c2".
Proof.
  split; [|vm_compute; reflexivity].
  apply compare_key_builder_order_independent.
  apply (Permutation_cons_app ["c1"] ["c10"]). apply Permutation_swap.
Defined.

(** ** Invalidation *)

Lemma redis_delete_healthy (keys : list string) (r : Redis) :
  raises r = false ->
  exists n, redis_delete keys r
            = (Some n, mkRedis (foldr delete (kv r) keys) (faults (snd (next_fault r)))).
Proof.
  unfold raises, redis_delete. pose proof (next_fault_kv r) as H.
  destruct (next_fault r) as [fault r']. simpl in *. intros ->.
  rewrite H. eexists. reflexivity.
Qed.

Lemma redis_delete_raises (keys : list string) (r : Redis) :
  raises r = true ->
  fst (redis_delete keys r) = None /\ kv (snd (redis_delete keys r)) = kv r.
Proof.
  unfold raises, redis_delete. pose proof (next_fault_kv r) as H.
  destruct (next_fault r) as [fault r']. simpl in *. intros ->. auto.
Qed.

Section InvalidationFacts.
Context {json : Json} {settings : Settings} {glob : Glob} {World : Type}.

(** X17.  [delete_cache]: when the store answers, the call succeeds
  whether or not the key was there, the key is gone, no other entry is
  touched, and the next [get_or_compute] under the key runs its
  operation; when the store raises, the call reports [False] and the
  cache is as it was. *)
Theorem delete_cache_invalidates (key : string) (r : Redis) :
(raises r = false ->
 fst (delete_cache key r) = true
 /\ kv (snd (delete_cache key r)) !! key = None
 /\ (forall other, other <> key ->
                   kv (snd (delete_cache key r)) !! other = kv r !! other)
 /\ (forall (f : compute World) ttl now w r2,
       kv r2 = kv (snd (delete_cache key r)) ->
       fst (get_or_compute key f ttl now w r2) = f w))
/\ (raises r = true ->
    fst (delete_cache key r) = false /\ kv (snd (delete_cache key r)) = kv r).
Proof.
unfold delete_cache. split.
- intros Hup. destruct (redis_delete_healthy [key] r Hup) as (n & ->). simpl.
  split; [reflexivity|]. split; [apply lookup_delete_eq|]. split.
  + intros other Hne. apply lookup_delete_ne. congruence.
  + intros f ttl now w r2 Hkv. apply get_or_compute_miss, get_cache_dead.
    unfold dead_entry. rewrite Hkv, lookup_delete_eq. exact I.
- intros Hdown. destruct (redis_delete_raises [key] r Hdown) as [H1 H2].
  destruct (redis_delete [key] r) as [[n|] r']; simpl in *; [discriminate|auto].
Qed.

Lemma mem_redis_keys (pattern : string) (now : Z) (m : gmap string (string * Z))
  (k : string) :
k ∈ List.filter (glob_match pattern)
      (map fst (List.filter (fun e => now <? snd (snd e)) (map_to_list m)))
<-> exists p expires, m !! k = Some (p, expires)
                      /\ (now <? expires) = true /\ glob_match pattern k = true.
Proof.
rewrite list_elem_of_In, filter_In, in_map_iff. split.
- intros [([k' [p e]] & Hk & Hin) Hglob]. simpl in Hk. subst k'.
  apply filter_In in Hin as [Hin Hlive]. simpl in Hlive.
  apply list_elem_of_In, elem_of_map_to_list in Hin. eauto.
- intros (p & e & Hk & Hlive & Hglob). split; [|exact Hglob].
  exists (k, (p, e)). split; [reflexivity|]. apply filter_In. split; [|exact Hlive].
  apply list_elem_of_In, elem_of_map_to_list. exact Hk.
Qed.

(** X18.  [clear_cache_pattern]: when it reports success, the entries
  that had not expired and whose key matches the pattern are gone, and
  every other entry is exactly as it was. *)
Theorem clear_cache_pattern_removes_matches
  (pattern : string) (now : Z) (r r' : Redis) :
clear_cache_pattern pattern now r = (true, r') ->
forall key,
  kv r' !! key
  = if live_at now r key && glob_match pattern key then None else kv r !! key.
Proof.
unfold clear_cache_pattern, redis_keys. pose proof (next_fault_kv r) as Hnf.
destruct (next_fault r) as [[] r1]; simpl in Hnf; [discriminate|].
intros Hrun key.
pose proof (mem_redis_keys pattern now (kv r1) key) as Hmem.
assert (Hcase : (live_at now r key && glob_match pattern key = true
                 <-> exists p e, kv r1 !! key = Some (p, e)
                                 /\ (now <? e) = true /\ glob_match pattern key = true)).
{ unfold live_at. rewrite Hnf. split.
  - intros H. apply andb_prop in H as [Hl Hg].
    destruct (kv r !! key) as [[p e]|]; [eauto|discriminate].
  - intros (p & e & -> & Hl & Hg). rewrite Hl, Hg. reflexivity. }
destruct (List.filter (glob_match pattern) _) as [|k0 ks] eqn:Ekeys.
- injection Hrun as <-. rewrite Hnf.
  destruct (Bool.bool_dec (live_at now r key && glob_match pattern key) true) as [E|E].
  + apply Hcase, Hmem in E. inversion E.
  + apply Bool.not_true_is_false in E. rewrite E. reflexivity.
- unfold redis_delete in Hrun. pose proof (next_fault_kv r1) as Hnf1.
  destruct (next_fault r1) as [[] r2]; simpl in Hnf1; [discriminate|].
  injection Hrun as <-. cbn [kv]. rewrite Hnf1.
  change (delete k0 (foldr delete (kv r1) ks))
    with (foldr delete (kv r1) (k0 :: ks)).
  destruct (Bool.bool_dec (live_at now r key && glob_match pattern key) true) as [E|E].
  + rewrite E. apply lookup_foldr_delete, Hmem, Hcase, E.
  + rewrite lookup_foldr_delete_not_elem_of.
    * apply Bool.not_true_is_false in E. rewrite E, Hnf. reflexivity.
    * intros Hin. apply Hmem, Hcase in Hin. contradiction.
Qed.

(** X19.  [clear_cache_pattern] is safe to call: when it reports
  [False] no entry has changed, and with the store answering a pattern
  that no live key matches is reported as a success after the one
  request that lists the keys, with no entry changed either. *)
Theorem clear_cache_pattern_is_safe (pattern : string) (now : Z) (r : Redis) :
(fst (clear_cache_pattern pattern now r) = false ->
 kv (snd (clear_cache_pattern pattern now r)) = kv r)
/\ (raises r = false ->
    (forall key, live_at now r key && glob_match pattern key = false) ->
    clear_cache_pattern pattern now r = (true, snd (next_fault r))).
Proof.
unfold clear_cache_pattern, redis_keys, raises. pose proof (next_fault_kv r) as Hnf.
destruct (next_fault r) as [fault r1]. simpl in Hnf. split.
- destruct fault; simpl; [intros _; exact Hnf|].
  destruct (List.filter (glob_match pattern) _) as [|k0 ks]; simpl; [discriminate|].
  unfold redis_delete. pose proof (next_fault_kv r1) as Hnf1.
  destruct (next_fault r1) as [[] r2]; simpl in *; [congruence|discriminate].
- simpl. intros -> Hnone.
  destruct (List.filter (glob_match pattern) _) as [|k0 ks] eqn:Ekeys; [reflexivity|].
  assert (Hin : k0 ∈ List.filter (glob_match pattern)
                  (map fst (List.filter (fun e => now <? snd (snd e))
                                        (map_to_list (kv r1)))))
    by (rewrite Ekeys; left).
  apply mem_redis_keys in Hin as (p & e & Hk & Hlive & Hglob).
  specialize (Hnone k0). unfold live_at in Hnone. rewrite <- Hnf, Hk, Hlive, Hglob in Hnone.
  discriminate.
Qed.

End InvalidationFacts.
